(** * fork_queue: branches of GitHub forks not yet merged locally

    A shallow embedding of [fork_queue.py].  The program asks the GitHub
    API for the forks of a repository and for the branches of every fork,
    and prints the branches whose head commit is not found when walking
    down a branch of the local git repository.

    What the program gets from its libraries is modelled as follows.
    - Python values decoded from JSON are the type [json]; a [Repository]
      or [Branch] named tuple holds such values, as in Python.
    - An exception is a value of [exn]; a computation that can raise has
      type [result]; one that also performs requests and prints has type
      [run], which records the events in order.
    - [requests.get] is a function [api] from URLs to responses.
    - The local repository (GitPython's [Repo]) is a record: its method
      [commit] and the parents of every commit object.  [Git.repo] builds
      the record of a repository from its commits and refs, with the
      name resolution of GitPython. *)

From stdpp Require Import base list relations strings gmap.

Set Warnings "-clear-no-such-hyp,-register-all".

Open Scope string_scope.
Open Scope nat_scope.
Open Scope list_scope.
Open Scope stdpp_scope.

(** ** The local commit graph *)

(** A commit object is identified by its hash; GitPython compares commit
    objects by their hash. *)
Abbreviation hash := string (only parsing).

Module Graph.

Section graph.
(** The object database: the parents recorded in each commit. *)
Variable g : gmap hash (list hash).

Definition parents_of (c : hash) : list hash := default [] (g !! c).

(** [is_parent c p]: [p] is recorded as a parent of [c]. *)
Definition is_parent (c p : hash) : Prop := p ∈ parents_of c.

(** [ancestor a c]: [a] is reached from [c] by one or more parent
    steps. *)
Definition ancestor (a c : hash) : Prop := tc is_parent c a.

Definition acyclic : Prop := ∀ c, ¬ ancestor c c.

(** Every hash that is recorded as a parent of some commit. *)
Definition all_parents : gset hash :=
  list_to_set (concat (snd <$> map_to_list g)).

(** The parents of [c] that have not been seen yet, each once. *)
Fixpoint fresh (ps : list hash) (seen : gset hash) : list hash :=
  match ps with
  | [] => []
  | p :: ps' =>
      if decide (p ∈ seen) then fresh ps' seen
      else p :: fresh ps' ({[p]} ∪ seen)
  end.

(** The revision walk of [git rev-list]: a commit is marked as seen when
    it enters the queue, is listed when it leaves it, and its parents
    that are not marked enter the queue.  (git orders the queue by
    commit date; the program only tests membership in the listing.) *)
Fixpoint walk (fuel : nat) (seen : gset hash) (queue : list hash)
  : list hash :=
  match fuel, queue with
  | S fuel', c :: rest =>
      let new := fresh (parents_of c) seen in
      c :: walk fuel' (list_to_set new ∪ seen) (rest ++ new)
  | _, _ => []
  end.

(** [git rev-list c]: [c] and everything reachable from it.  No walk
    lists more commits than one more than there are parents. *)
Definition rev_list (c : hash) : list hash :=
  walk (S (size all_parents)) {[c]} [c].

(** [Commit.iter_parents()] runs [git rev-list --skip=1]: the listing
    without its first entry, the commit itself. *)
Definition iter_parents (c : hash) : list hash := drop 1 (rev_list c).

End graph.

End Graph.

(** ** Python values and exceptions *)

(** A value decoded by [Response.json()].  Numbers are integers here. *)
Inductive json :=
| JNull
| JBool (b : bool)
| JNum (n : Z)
| JStr (s : string)
| JArr (items : list json)
| JObj (fields : list (string * json)).

(** The exceptions the program can meet.  [BadObject] and [BadName] are
    the two classes of [gitdb.exc], neither a subclass of the other;
    [ValueError] is raised by [Response.json()] on a body that is not
    JSON and by GitPython for a hash the object database does not have;
    [RequestException] stands for what [requests.get] raises, [GitError]
    for any other failure of GitPython. *)
Inductive exn :=
| BadObject
| BadName
| KeyError (key : string)
| TypeError
| ValueError
| RequestException
| GitError.

Inductive result (A : Type) :=
| Ok (a : A)
| Raise (e : exn).
Arguments Ok {A} a.
Arguments Raise {A} e.

#[global] Instance result_ret : MRet result := @Ok.
#[global] Instance result_bind : MBind result := λ A B f m,
  match m with
  | Ok a => f a
  | Raise e => Raise e
  end.

(** [d[key]] on a decoded object; a key given twice keeps its last value. *)
Fixpoint dict_get (key : string) (fields : list (string * json))
  : option json :=
  match fields with
  | [] => None
  | (k, v) :: rest =>
      match dict_get key rest with
      | Some v' => Some v'
      | None => if decide (k = key) then Some v else None
      end
  end.

(** [v[key]] for a string [key]. *)
Definition getitem (v : json) (key : string) : result json :=
  match v with
  | JObj fields =>
      match dict_get key fields with
      | Some x => Ok x
      | None => Raise (KeyError key)
      end
  | _ => Raise TypeError
  end.

Definition chars (s : string) : list string :=
  (λ a, String a EmptyString) <$> String.list_ascii_of_string s.

(** The keys of a decoded object: a key given twice keeps the place of
    its first occurrence. *)
Fixpoint dict_keys (seen : list string) (fields : list (string * json))
  : list string :=
  match fields with
  | [] => []
  | (k, _) :: rest =>
      if decide (k ∈ seen) then dict_keys seen rest
      else k :: dict_keys (k :: seen) rest
  end.

(** What [for x in v] iterates over: the items of a list, the keys of a
    dict, the characters of a string. *)
Definition py_iter (v : json) : result (list json) :=
  match v with
  | JArr items => Ok items
  | JObj fields => Ok (JStr <$> dict_keys [] fields)
  | JStr s => Ok (JStr <$> chars s)
  | _ => Raise TypeError
  end.

(** The hashable values as a set holds them: [True == 1] and
    [False == 0] in Python, lists and dicts are unhashable. *)
Inductive pykey :=
| KNone
| KInt (n : Z)
| KStr (s : string).

#[global] Instance pykey_eq_dec : EqDecision pykey.
Proof. solve_decision. Defined.

#[global] Instance pykey_countable : Countable pykey.
Proof.
  refine (inj_countable'
    (λ k, match k with
          | KNone => inl ()
          | KInt n => inr (inl n)
          | KStr s => inr (inr s)
          end)
    (λ x, match x with
          | inl _ => KNone
          | inr (inl n) => KInt n
          | inr (inr s) => KStr s
          end) _).
  by intros [].
Defined.

Definition py_hash (v : json) : result pykey :=
  match v with
  | JNull => Ok KNone
  | JBool b => Ok (KInt (if b then 1 else 0))
  | JNum n => Ok (KInt n)
  | JStr s => Ok (KStr s)
  | JArr _ | JObj _ => Raise TypeError
  end.

(** [x not in s] *)
Definition not_in (x : json) (s : gset pykey) : result bool :=
  k ← py_hash x; Ok (bool_decide (k ∉ s)).

(** [s.update(xs)] *)
Fixpoint update (s : gset pykey) (xs : list json) : result (gset pykey) :=
  match xs with
  | [] => Ok s
  | x :: xs' => k ← py_hash x; update ({[k]} ∪ s) xs'
  end.

(** ** The program *)

Module fork_queue.

(** *** Records *)

Module Repository.
Record t := make { owner : json; name : json }.
End Repository.

Module Branch.
Record t := make { name : json; commit : json }.
End Branch.

(** GitPython's [Repo]: [commit rev] is [Repo.commit(rev)], the hash of the
    commit that [rev] names or the exception raised; [objects] holds the
    parents of every commit.  [Git.repo] below builds such a record as
    GitPython resolves names. *)
Module Repo.
Record t := make {
  commit : json → result hash;
  objects : gmap hash (list hash)
}.
End Repo.

(** *** The merge check *)

(** The loop [for commit in ...: if commit == branch_commit: return True]
    followed by [return False]. *)
Fixpoint find_commit (commits : list hash) (branch_commit : hash) : bool :=
  match commits with
  | [] => false
  | commit :: rest =>
      if decide (commit = branch_commit) then true
      else find_commit rest branch_commit
  end.

Definition branch_is_merged (branch : Branch.t) (local_repo : Repo.t)
    (integration_branch : json) : result bool :=
  match Repo.commit local_repo (Branch.commit branch) with
  | Raise BadObject => Ok false
  | Raise e => Raise e
  | Ok branch_commit =>
      integration_branch ← Repo.commit local_repo integration_branch;
      Ok (find_commit
            (Graph.iter_parents (Repo.objects local_repo) integration_branch)
            branch_commit)
  end.

(** *** Requests and printing *)

(** What the program does to the outside, in order. *)
Inductive event :=
| HttpGet (url : string)
| Print (line : string).

(** A computation that performs events and then returns or raises. *)
Record run (A : Type) := Run { trace : list event; outcome : result A }.
Arguments Run {A} trace outcome.
Arguments trace {A} r.
Arguments outcome {A} r.

#[global] Instance run_ret : MRet run := λ A a, Run [] (Ok a).
#[global] Instance run_bind : MBind run := λ A B f m,
  match outcome m with
  | Ok a => Run (trace m ++ trace (f a)) (outcome (f a))
  | Raise e => Run (trace m) (Raise e)
  end.

(** A computation without events. *)
Definition lift {A} (r : result A) : run A := Run [] r.

(** [print(line)] *)
Definition print (line : string) : run unit := Run [Print line] (Ok ()).

(** The lines printed, in order. *)
Definition output (events : list event) : list string :=
  omap (λ e, match e with Print line => Some line | HttpGet _ => None end)
       events.

(** A response of the API: its [json()] method returns the decoded body
    or raises. *)
Module Response.
Record t := make { json : result json }.
End Response.

Definition API_URL : string := "https://api.github.com".

(** The state of the loop of [main] between two forks: the set
    [all_unmerged] and, for the proofs, the value that
    [unmerged_branches] took for each fork processed so far. *)
Record loop_state := LoopState {
  all_unmerged : gset pykey;
  reported : list (Repository.t * list Branch.t)
}.

Section Program.
(** [str(v)] for a value that is not a string: what [%s] prints. *)
Variable str_other : json → string.

(** [requests.get(url)]: the response, or the exception raised. *)
Variable api : string → result Response.t.

(** The repository that [Repo('.')] opens. *)
Variable cwd_repo : Repo.t.

Definition py_str (v : json) : string :=
  match v with
  | JStr s => s
  | _ => str_other v
  end.

Definition requests_get (url : string) : run Response.t :=
  Run [HttpGet url] (api url).

(** [Repository(repo['owner']['login'], repo['name'])] *)
Definition fork_of (repo : json) : result Repository.t :=
  owner ← getitem repo "owner";
  login ← getitem owner "login";
  name ← getitem repo "name";
  Ok (Repository.make login name).

(** [Branch(branch['name'], branch['commit']['sha'])] *)
Definition branch_of (branch : json) : result Branch.t :=
  name ← getitem branch "name";
  commit ← getitem branch "commit";
  sha ← getitem commit "sha";
  Ok (Branch.make name sha).

(** The generator [get_forks]: when the loop asks for the first fork it
    sends the request and decodes the body; every element is then
    turned into a record when the loop reaches it, which can raise. *)
Definition get_forks (repository : Repository.t)
  : run (list (result Repository.t)) :=
  let request :=
    API_URL +:+ "/repos/" +:+ py_str (Repository.owner repository)
      +:+ "/" +:+ py_str (Repository.name repository)
      +:+ "/forks?per_page=100" in
  response ← requests_get request;
  body ← lift (Response.json response);
  repos ← lift (py_iter body);
  mret (fmap (M:=list) fork_of repos).

Definition get_branches (repository : Repository.t)
  : run (list (result Branch.t)) :=
  let request :=
    API_URL +:+ "/repos/" +:+ py_str (Repository.owner repository)
      +:+ "/" +:+ py_str (Repository.name repository)
      +:+ "/branches?per_page=100" in
  response ← requests_get request;
  body ← lift (Response.json response);
  branches ← lift (py_iter body);
  mret (fmap (M:=list) branch_of branches).

(** The list comprehension of [main] over the branches a generator
    yields: [and] does not test the set for a merged branch. *)
Fixpoint select_unmerged (branches : list (result Branch.t))
    (local_repo : Repo.t) (integration_branch : json)
    (all_unmerged : gset pykey) : result (list Branch.t) :=
  match branches with
  | [] => Ok []
  | next :: rest =>
      branch ← next;
      merged ← branch_is_merged branch local_repo integration_branch;
      keep ← (if negb merged
              then not_in (Branch.commit branch) all_unmerged
              else Ok false);
      selected ← select_unmerged rest local_repo integration_branch
                   all_unmerged;
      Ok (if keep : bool then branch :: selected else selected)
  end.

(** [for branch in unmerged_branches: print("  %s" % branch.name)] *)
Fixpoint print_branches (unmerged_branches : list Branch.t) : run unit :=
  match unmerged_branches with
  | [] => mret ()
  | branch :: rest =>
      _ ← print ("  " +:+ py_str (Branch.name branch));
      print_branches rest
  end.

(** The block [if unmerged_branches: ...] at the end of the loop body. *)
Definition print_report (fork : Repository.t)
    (unmerged_branches : list Branch.t) : run unit :=
  match unmerged_branches with
  | [] => mret ()
  | _ =>
      _ ← print (py_str (Repository.owner fork) +:+ "/"
                   +:+ py_str (Repository.name fork) +:+ ":");
      print_branches unmerged_branches
  end.

(** The body of the loop of [main] for one fork. *)
Definition main_body (local_repo : Repo.t) (integration_branch : json)
    (fork : Repository.t) (st : loop_state) : run loop_state :=
  branches ← get_branches fork;
  unmerged_branches ←
    lift (select_unmerged branches local_repo integration_branch
            (all_unmerged st));
  all_unmerged' ←
    lift (update (all_unmerged st) (Branch.commit <$> unmerged_branches));
  _ ← print_report fork unmerged_branches;
  mret (LoopState all_unmerged'
          (reported st ++ [(fork, unmerged_branches)])).

(** The loop of [main] over the forks the generator yields. *)
Fixpoint main_loop (local_repo : Repo.t) (integration_branch : json)
    (forks : list (result Repository.t)) (st : loop_state)
  : run loop_state :=
  match forks with
  | [] => mret st
  | next :: rest =>
      fork ← lift next;
      st' ← main_body local_repo integration_branch fork st;
      main_loop local_repo integration_branch rest st'
  end.

Definition main (repository : Repository.t) (integration_branch : json)
  : run unit :=
  let all_unmerged := ∅ in
  let local_repo := cwd_repo in
  forks ← get_forks repository;
  _ ← main_loop local_repo integration_branch forks
        (LoopState all_unmerged []);
  mret ().

(** The command line: three strings. *)
Definition cli (owner repository integration_branch : string) : run unit :=
  main (Repository.make (JStr owner) (JStr repository))
       (JStr integration_branch).

End Program.

End fork_queue.

Import fork_queue.

(** ** Name resolution in GitPython *)

(** [Repo.commit(rev)] is [rev_parse(str(rev) + "^0")].  For a name
    without the operators of the revision syntax this is
    [name_to_object]: forty hex digits are taken as a hash; any other
    name is looked up as a ref, and failing that as the abbreviation of
    a hash.  A name that is neither raises [BadName]; a hash that the
    object database does not have raises [ValueError].  [BadObject] is
    never raised on this way. *)
Module Git.

Definition chars_of (s : string) : list Ascii.ascii := String.list_ascii_of_string s.

Definition is_hex_digit (a : Ascii.ascii) : bool :=
  existsb (Ascii.eqb a) (chars_of "0123456789abcdefABCDEF").

(** [re_hexsha_shortened]: four to forty hex digits. *)
Definition is_hexsha (name : string) : bool :=
  forallb is_hex_digit (chars_of name)
  && (4 <=? String.length name) && (String.length name <=? 40).

Definition lower_digit (a : Ascii.ascii) : Ascii.ascii :=
  let n := Ascii.nat_of_ascii a in
  if (65 <=? n) && (n <=? 70) then Ascii.ascii_of_nat (n + 32) else a.

Fixpoint lower (s : string) : string :=
  match s with
  | EmptyString => EmptyString
  | String a s' => String (lower_digit a) (lower s')
  end.

(** A name that [rev_parse] reads as it stands: not empty, and without
    [^], [~], [:] and [@]. *)
Definition plain (name : string) : bool :=
  negb (String.eqb name "")
  && negb (existsb (λ a, existsb (Ascii.eqb a) (chars_of "^~:@"))
             (chars_of name)).

(** The places where a ref of the given name is looked for, in order. *)
Definition ref_paths (name : string) : list string :=
  [name; "refs/" +:+ name; "refs/tags/" +:+ name; "refs/heads/" +:+ name;
   "refs/remotes/" +:+ name; "refs/remotes/" +:+ name +:+ "/HEAD"].

Definition lookup_ref (refs : gmap string hash) (name : string)
  : option hash :=
  head (omap (λ path, refs !! path) (ref_paths name)).

(** The one hash that the abbreviation stands for, if there is one. *)
Definition short_to_long (objects : gmap hash (list hash)) (name : string)
  : option hash :=
  match List.filter (String.prefix (lower name)) (elements (dom objects)) with
  | [h] => Some h
  | _ => None
  end.

Definition name_to_object (objects : gmap hash (list hash))
    (refs : gmap string hash) (name : string) : result hash :=
  let hexsha :=
    if is_hexsha name && (String.length name =? 40) then Some (lower name)
    else
      match lookup_ref refs name with
      | Some h => Some h
      | None => if is_hexsha name then short_to_long objects name else None
      end in
  match hexsha with
  | None => Raise BadName
  | Some h => if decide (h ∈ dom objects) then Ok h else Raise ValueError
  end.

(** [other] stands for what GitPython does with a revision that is not
    a plain name: a value that is not a string, the empty string, or a
    name with operators of the revision syntax. *)
Definition commit (objects : gmap hash (list hash))
    (refs : gmap string hash) (other : json → result hash) (rev : json)
  : result hash :=
  match rev with
  | JStr name =>
      if plain name then name_to_object objects refs name else other rev
  | _ => other rev
  end.

Definition repo (objects : gmap hash (list hash)) (refs : gmap string hash)
    (other : json → result hash) : Repo.t :=
  Repo.make (commit objects refs other) objects.

(** The repository has no commit for the name: it is a hash, whole or
    abbreviated, of no object, and no ref. *)
Definition absent (objects : gmap hash (list hash))
    (refs : gmap string hash) (name : string) : Prop :=
  plain name = true
  ∧ is_hexsha name = true
  ∧ List.filter (String.prefix (lower name)) (elements (dom objects)) = []
  ∧ lookup_ref refs name = None.

End Git.

(** ** What the statements below speak of *)

(** The path and query of the two requests, after the base URL. *)
Definition forks_path (owner name : string) : string :=
  "/repos/" +:+ owner +:+ "/" +:+ name +:+ "/forks?per_page=100".

Definition branches_path (owner name : string) : string :=
  "/repos/" +:+ owner +:+ "/" +:+ name +:+ "/branches?per_page=100".

(** The lines of the report of a fork: the header and one indented line
    for each branch, or nothing when there is no branch. *)
Definition report_lines (str_other : json → string) (fork : Repository.t)
    (unmerged_branches : list Branch.t) : list string :=
  match unmerged_branches with
  | [] => []
  | _ =>
      (py_str str_other (Repository.owner fork) +:+ "/"
         +:+ py_str str_other (Repository.name fork) +:+ ":")
      :: ((λ branch, "  " +:+ py_str str_other (Branch.name branch))
            <$> unmerged_branches)
  end.

(** The URLs of the two requests for a repository. *)
Definition forks_request (str_other : json → string)
    (repository : Repository.t) : string :=
  API_URL +:+ forks_path (py_str str_other (Repository.owner repository))
                         (py_str str_other (Repository.name repository)).

Definition branches_request (str_other : json → string)
    (repository : Repository.t) : string :=
  API_URL +:+ branches_path (py_str str_other (Repository.owner repository))
                            (py_str str_other (Repository.name repository)).

(** The elements of the body of the response to a request, or the
    exception raised on the way to them. *)
Definition response_items (api : string → result Response.t) (url : string)
  : result (list json) :=
  match api url with
  | Ok response =>
      match Response.json response with
      | Ok body => py_iter body
      | Raise e => Raise e
      end
  | Raise e => Raise e
  end.

(** The test of the list comprehension on a branch, when nothing raises:
    the branch is told unmerged and its commit is not in the set. *)
Definition unmerged_and_new (local_repo : Repo.t) (integration_branch : json)
    (all_unmerged : gset pykey) (branch : Branch.t) : bool :=
  match branch_is_merged branch local_repo integration_branch with
  | Ok false =>
      match py_hash (Branch.commit branch) with
      | Ok k => bool_decide (k ∉ all_unmerged)
      | Raise _ => false
      end
  | _ => false
  end.

(** The set holds exactly the commits of the branches reported so far. *)
Definition holds_reported (st : loop_state) : Prop :=
  ∀ k, k ∈ all_unmerged st ↔
       ∃ fork unmerged_branches branch,
         (fork, unmerged_branches) ∈ reported st
         ∧ branch ∈ unmerged_branches
         ∧ py_hash (Branch.commit branch) = Ok k.

(** Every branch reported was told unmerged. *)
Definition reported_unmerged (local_repo : Repo.t) (integration_branch : json)
    (its : list (Repository.t * list Branch.t)) : Prop :=
  ∀ fork unmerged_branches branch,
    (fork, unmerged_branches) ∈ its → branch ∈ unmerged_branches →
    branch_is_merged branch local_repo integration_branch = Ok false.

(** No branch reported for a fork has the commit of a branch reported
    for an earlier fork. *)
Definition reported_once (its : list (Repository.t * list Branch.t)) : Prop :=
  ∀ i j fork1 unmerged1 fork2 unmerged2 branch1 branch2,
    i < j →
    its !! i = Some (fork1, unmerged1) →
    its !! j = Some (fork2, unmerged2) →
    branch1 ∈ unmerged1 → branch2 ∈ unmerged2 →
    py_hash (Branch.commit branch1) ≠ py_hash (Branch.commit branch2).

(** Every branch of a fork that shares its commit with another branch of
    the fork and is told unmerged has its line in the output. *)
Definition twins_reported (str_other : json → string)
    (api : string → result Response.t) (local_repo : Repo.t)
    (repository : Repository.t) (integration_branch : json) : Prop :=
  ∀ forks fork bs i j b1 b2,
    outcome (get_forks str_other api repository) = Ok forks →
    Ok fork ∈ forks →
    outcome (get_branches str_other api fork) = Ok (Ok <$> bs) →
    i ≠ j → bs !! i = Some b1 → bs !! j = Some b2 →
    Branch.commit b1 = Branch.commit b2 →
    branch_is_merged b1 local_repo integration_branch = Ok false →
    ("  " +:+ py_str str_other (Branch.name b1))
    ∈ output (trace (main str_other api local_repo repository
                       integration_branch)).

(** ** A small world for the examples *)

Module Sample.

Definition c0 : hash := "c0c0c0c0c0c0c0c0c0c0c0c0c0c0c0c0c0c0c0c0".
Definition c1 : hash := "c1c1c1c1c1c1c1c1c1c1c1c1c1c1c1c1c1c1c1c1".
Definition c2 : hash := "c2c2c2c2c2c2c2c2c2c2c2c2c2c2c2c2c2c2c2c2".
Definition c3 : hash := "c3c3c3c3c3c3c3c3c3c3c3c3c3c3c3c3c3c3c3c3".
Definition d1 : hash := "d1d1d1d1d1d1d1d1d1d1d1d1d1d1d1d1d1d1d1d1".
Definition d2 : hash := "d2d2d2d2d2d2d2d2d2d2d2d2d2d2d2d2d2d2d2d2".

(** A hash of forty digits that the repository does not have; the short
    hash [abc123] of the specification is absent too. *)
Definition gone : hash := "abababababababababababababababababababab".

(** A local history: [c0 <- c1 <- c2 <- c3] is the line of [main] ([c3] is
    a merge of [c2] and [c1]); [d1] and [d2] are commits on lines of their
    own, fetched but not merged. *)
Definition commits : gmap hash (list hash) :=
  <[c3 := [c2; c1]]>
    (<[c2 := [c1]]>
       (<[c1 := [c0]]>
          (<[c0 := []]> (<[d1 := [c0]]> (<[d2 := [c0]]> ∅))))).

Definition refs : gmap string hash :=
  <["HEAD" := c3]> (<["refs/heads/main" := c3]> ∅).

(** No example uses a revision that is not a plain name. *)
Definition other (rev : json) : result hash := Raise GitError.

Definition repo : Repo.t := Git.repo commits refs other.

Definition rank (c : hash) : nat :=
  if decide (c = c3) then 3
  else if decide (c = c2) then 2
  else if decide (c = c1) then 1
  else if decide (c = d1) then 1
  else if decide (c = d2) then 1
  else 0.

Definition fork_json (owner name : string) : json :=
  JObj [("name", JStr name); ("owner", JObj [("login", JStr owner)])].

Definition branch_json (name sha : string) : json :=
  JObj [("name", JStr name); ("commit", JObj [("sha", JStr sha)])].

Definition forks_url : string :=
  "https://api.github.com/repos/octo/repo/forks?per_page=100".

Definition branches_url (owner : string) : string :=
  "https://api.github.com/repos/" +:+ owner +:+ "/repo/branches?per_page=100".

Definition reply (body : json) : result Response.t :=
  Ok (Response.make (Ok body)).

(** The end-to-end example of the specification: one fork, [alice/repo],
    with one branch [feature] at [abc123], a commit the local repository
    does not have. *)
Definition api_one (url : string) : result Response.t :=
  if decide (url = forks_url) then
    reply (JArr [fork_json "alice" "repo"])
  else if decide (url = branches_url "alice") then
    reply (JArr [branch_json "feature" "abc123"])
  else Raise RequestException.

(** Two forks that both have a branch at the unmerged commit [d1]. *)
Definition api_two (url : string) : result Response.t :=
  if decide (url = forks_url) then
    reply (JArr [fork_json "alice" "repo"; fork_json "bob" "repo"])
  else if decide (url = branches_url "alice") then
    reply (JArr [branch_json "feature" d1])
  else if decide (url = branches_url "bob") then
    reply (JArr [branch_json "master" c1; branch_json "topic" d1])
  else Raise RequestException.

(** One fork with two branches at the same unmerged commit. *)
Definition api_twins (url : string) : result Response.t :=
  if decide (url = forks_url) then
    reply (JArr [fork_json "alice" "repo"])
  else if decide (url = branches_url "alice") then
    reply (JArr [branch_json "feature" d1; branch_json "wip" d1])
  else Raise RequestException.

(** A second fork with two branches at a commit that the first fork has
    a branch at. *)
Definition api_late_twins (url : string) : result Response.t :=
  if decide (url = forks_url) then
    reply (JArr [fork_json "alice" "repo"; fork_json "bob" "repo"])
  else if decide (url = branches_url "alice") then
    reply (JArr [branch_json "feature" d1])
  else if decide (url = branches_url "bob") then
    reply (JArr [branch_json "topic" d1; branch_json "wip" d1])
  else Raise RequestException.

(** The API cannot be reached. *)
Definition api_down (url : string) : result Response.t :=
  Raise RequestException.

Definition str_other (v : json) : string := "".

Definition alice : Repository.t := Repository.make (JStr "alice") (JStr "repo").
Definition bob : Repository.t := Repository.make (JStr "bob") (JStr "repo").
Definition octo : Repository.t := Repository.make (JStr "octo") (JStr "repo").

Definition branch (name : string) (sha : hash) : Branch.t :=
  Branch.make (JStr name) (JStr sha).

End Sample.

(** ** Further worlds *)

(** The requests issued, in order. *)
Definition requests (events : list event) : list string :=
  omap (λ e, match e with HttpGet url => Some url | Print _ => None end)
       events.

Module Cases.

(** The reply of the API when it refuses a request: an object with a
    message, not an array. *)
Definition api_refused (url : string) : result Response.t :=
  Sample.reply (JObj [("message", JStr "API rate limit exceeded")]).

(** The second fork lacks its [owner]. *)
Definition api_bad_fork (url : string) : result Response.t :=
  if decide (url = Sample.forks_url) then
    Sample.reply (JArr [Sample.fork_json "alice" "repo";
                        JObj [("name", JStr "repo")]])
  else if decide (url = Sample.branches_url "alice") then
    Sample.reply (JArr [Sample.branch_json "feature" Sample.d1])
  else Raise RequestException.

(** The second branch of the second fork lacks its [commit]. *)
Definition api_bad_branch (url : string) : result Response.t :=
  if decide (url = Sample.forks_url) then
    Sample.reply (JArr [Sample.fork_json "alice" "repo";
                        Sample.fork_json "bob" "repo"])
  else if decide (url = Sample.branches_url "alice") then
    Sample.reply (JArr [Sample.branch_json "feature" Sample.d1])
  else if decide (url = Sample.branches_url "bob") then
    Sample.reply (JArr [Sample.branch_json "topic" Sample.d2;
                        JObj [("name", JStr "wip")]])
  else Raise RequestException.

(** The API lists the fork [alice/repo], then [bob/repo], then
    [alice/repo] again. *)
Definition api_listed_twice (url : string) : result Response.t :=
  if decide (url = Sample.forks_url) then
    Sample.reply (JArr [Sample.fork_json "alice" "repo";
                        Sample.fork_json "bob" "repo";
                        Sample.fork_json "alice" "repo"])
  else if decide (url = Sample.branches_url "alice") then
    Sample.reply (JArr [Sample.branch_json "feature" Sample.d1;
                        Sample.branch_json "master" Sample.c1])
  else if decide (url = Sample.branches_url "bob") then
    Sample.reply (JArr [Sample.branch_json "topic" Sample.d2])
  else Raise RequestException.

(** Every branch of the one fork is merged. *)
Definition api_all_merged (url : string) : result Response.t :=
  if decide (url = Sample.forks_url) then
    Sample.reply (JArr [Sample.fork_json "alice" "repo"])
  else if decide (url = Sample.branches_url "alice") then
    Sample.reply (JArr [Sample.branch_json "master" Sample.c2;
                        Sample.branch_json "old" Sample.c0])
  else Raise RequestException.

(** A fork with a branch at a hash of forty digits that the local
    repository does not have. *)
Definition api_gone (url : string) : result Response.t :=
  if decide (url = Sample.forks_url) then
    Sample.reply (JArr [Sample.fork_json "alice" "repo"])
  else if decide (url = Sample.branches_url "alice") then
    Sample.reply (JArr [Sample.branch_json "feature" Sample.gone])
  else Raise RequestException.

(** One fork with two branches at the same unmerged commit and a third
    branch at a commit that the local repository does not have. *)
Definition api_twins_then_absent (url : string) : result Response.t :=
  if decide (url = Sample.forks_url) then
    Sample.reply (JArr [Sample.fork_json "alice" "repo"])
  else if decide (url = Sample.branches_url "alice") then
    Sample.reply (JArr [Sample.branch_json "feature" Sample.d1;
                        Sample.branch_json "wip" Sample.d1;
                        Sample.branch_json "stale" "abc123"])
  else Raise RequestException.

(** A repository of one commit, [c0], that [main] points to. *)
Definition single_commit : Repo.t :=
  Git.repo (<[Sample.c0 := []]> ∅)
    (<["HEAD" := Sample.c0]> (<["refs/heads/main" := Sample.c0]> ∅))
    Sample.other.

End Cases.

(** ** The report of a listing *)

(** The checks of the comprehension return for the branch: the merge check
    does not raise, and the commit of a branch told unmerged can be looked
    for in the set. *)
Definition checks_return (local_repo : Repo.t) (integration_branch : json)
    (branch : Branch.t) : Prop :=
  ∃ merged,
    branch_is_merged branch local_repo integration_branch = Ok merged
    ∧ (merged = false → ∃ k, py_hash (Branch.commit branch) = Ok k).

(** The commits of the branches, as the set holds them. *)
Definition keys_of (branches : list Branch.t) : gset pykey :=
  list_to_set
    (omap (λ b, match py_hash (Branch.commit b) with
                | Ok k => Some k
                | Raise _ => None
                end) branches).

(** What is to be reported for a listing of forks with their branches,
    from a set of commits reported before: for each fork in turn the
    branches that are told unmerged and whose commit was not reported for
    a fork before it. *)
Fixpoint expected_report (local_repo : Repo.t) (integration_branch : json)
    (listing : list (Repository.t * list Branch.t)) (seen : gset pykey)
  : list (Repository.t * list Branch.t) :=
  match listing with
  | [] => []
  | (fork, bs) :: rest =>
      let kept :=
        List.filter (unmerged_and_new local_repo integration_branch seen) bs in
      (fork, kept)
      :: expected_report local_repo integration_branch rest
           (seen ∪ keys_of kept)
  end.

(** The events of the loop for a fork and the branches kept for it. *)
Definition fork_events (str_other : json → string)
    (it : Repository.t * list Branch.t) : list event :=
  HttpGet (branches_request str_other it.1)
  :: (Print <$> report_lines str_other it.1 it.2).

(** * Facts *)

(** ** The revision walk *)

Section walk_facts.
Import Graph.
Variable g : gmap hash (list hash).

Local Abbreviation parents_of := (parents_of g).
Local Abbreviation is_parent := (is_parent g).
Local Abbreviation ancestor := (ancestor g).
Local Abbreviation acyclic := (acyclic g).
Local Abbreviation all_parents := (all_parents g).
Local Abbreviation walk := (walk g).
Local Abbreviation rev_list := (rev_list g).
Local Abbreviation iter_parents := (iter_parents g).

Lemma parents_in_all c p : is_parent c p → p ∈ all_parents.
Proof.
  unfold is_parent, parents_of, all_parents. intros Hp.
  destruct (g !! c) as [ps|] eqn:Hc; simpl in Hp; [|by inversion Hp].
  apply elem_of_list_to_set, list_elem_of_In, in_concat.
  exists ps. split; [|by apply list_elem_of_In].
  apply list_elem_of_In, list_elem_of_fmap. exists (c, ps). split; [done|].
  by apply elem_of_map_to_list.
Qed.

Lemma fresh_spec ps seen x : x ∈ fresh ps seen ↔ x ∈ ps ∧ x ∉ seen.
Proof.
  revert seen. induction ps as [|p ps IH]; intros seen; simpl.
  - set_solver.
  - destruct (decide (p ∈ seen)) as [Hin|Hin].
    + rewrite IH. set_solver.
    + rewrite !elem_of_cons, IH. split.
      * intros [->|[? ?]]; set_solver.
      * intros [[->|?] ?]; [by left|].
        destruct (decide (x = p)) as [->|]; [by left|]. right. set_solver.
Qed.

Lemma fresh_measure (U : gset hash) ps seen :
  (∀ p, p ∈ ps → p ∈ U) →
  length (fresh ps seen) + size (U ∖ (list_to_set (fresh ps seen) ∪ seen))
  = size (U ∖ seen).
Proof.
  revert seen. induction ps as [|p ps IH]; intros seen HU; simpl.
  - f_equal. set_solver.
  - destruct (decide (p ∈ seen)) as [Hin|Hin].
    + apply IH. intros; apply HU; set_solver.
    + simpl.
      assert (HU' : ∀ q, q ∈ ps → q ∈ U) by (intros; apply HU; set_solver).
      specialize (IH ({[p]} ∪ seen) HU').
      assert (Hsplit : U ∖ seen = {[p]} ∪ U ∖ ({[p]} ∪ seen)).
      { apply set_eq. intros x. specialize (HU p).
        destruct (decide (x = p)); set_solver. }
      rewrite Hsplit.
      rewrite (size_union {[p]} (U ∖ ({[p]} ∪ seen))) by set_solver.
      rewrite size_singleton, <- IH. simpl.
      do 3 f_equal. set_solver.
Qed.

(** A listed commit was in the queue or had not been seen. *)
Lemma walk_unseen fuel seen queue x :
  x ∈ walk fuel seen queue → x ∈ queue ∨ x ∉ seen.
Proof.
  revert seen queue. induction fuel as [|fuel IH]; intros seen queue; simpl.
  - intros Hx. by inversion Hx.
  - destruct queue as [|c rest]; [intros Hx; by inversion Hx|].
    rewrite elem_of_cons. intros [->|Hx]; [left; by left|].
    apply IH in Hx. rewrite elem_of_app, fresh_spec in Hx.
    destruct Hx as [[Hx|[_ Hx]]|Hx]; [left; by right|by right|].
    right. set_solver.
Qed.

(** A listed commit is reached from a commit of the queue. *)
Lemma walk_sound fuel seen queue x :
  x ∈ walk fuel seen queue → ∃ q, q ∈ queue ∧ rtc is_parent q x.
Proof.
  revert seen queue. induction fuel as [|fuel IH]; intros seen queue; simpl.
  - intros Hx. by inversion Hx.
  - destruct queue as [|c rest]; [intros Hx; by inversion Hx|].
    rewrite elem_of_cons. intros [->|Hx].
    + exists c. split; [by left|done].
    + apply IH in Hx as (q & Hq & Hreach).
      rewrite elem_of_app, fresh_spec in Hq.
      destruct Hq as [Hq|[Hq _]].
      * exists q. split; [by right|done].
      * exists c. split; [by left|]. by eapply rtc_l.
Qed.

(** With enough fuel the walk lists its whole queue, and what is done or
    listed is closed under parents. *)
Lemma walk_closed fuel seen queue (done : gset hash) :
  length queue + size (all_parents ∖ seen) ≤ fuel →
  (∀ c p, c ∈ done → is_parent c p → p ∈ seen) →
  (∀ x, x ∈ seen → x ∈ done ∨ x ∈ queue) →
  (∀ q, q ∈ queue → q ∈ walk fuel seen queue) ∧
  (∀ c p, c ∈ done ∨ c ∈ walk fuel seen queue → is_parent c p →
          p ∈ done ∨ p ∈ walk fuel seen queue).
Proof.
  revert seen queue done.
  induction fuel as [|fuel IH]; intros seen queue done Hfuel Hdone Hseen.
  - destruct queue as [|c rest]; [|simpl in Hfuel; lia]. simpl. split.
    + intros q Hq. by inversion Hq.
    + intros c p [Hc|Hc] Hp; [|by inversion Hc].
      destruct (Hseen p (Hdone c p Hc Hp)) as [?|Hq]; [by left|].
      by inversion Hq.
  - destruct queue as [|c rest]; simpl.
    { split; [intros q Hq; by inversion Hq|].
      intros c p [Hc|Hc] Hp; [|by inversion Hc].
      destruct (Hseen p (Hdone c p Hc Hp)) as [?|Hq]; [by left|].
      by inversion Hq. }
    set (new := fresh (parents_of c) seen).
    destruct (IH (list_to_set new ∪ seen) (rest ++ new) ({[c]} ∪ done))
      as [Hqueue Hclosed].
    + pose proof (fresh_measure all_parents (parents_of c) seen
                    (parents_in_all c)) as Hm.
      fold new in Hm. rewrite length_app. simpl in Hfuel. lia.
    + intros d p Hd Hp. apply elem_of_union.
      apply elem_of_union in Hd as [Hd|Hd].
      * apply elem_of_singleton in Hd as ->.
        destruct (decide (p ∈ seen)); [by right|left].
        apply elem_of_list_to_set, fresh_spec. done.
      * right. by eapply Hdone.
    + intros x Hx. apply elem_of_union in Hx as [Hx|Hx].
      * right. apply elem_of_app. right. by apply elem_of_list_to_set in Hx.
      * destruct (Hseen x Hx) as [?|Hq]; [left; set_solver|].
        apply elem_of_cons in Hq as [->|Hq]; [left; set_solver|].
        right. apply elem_of_app. by left.
    + split.
      * intros q Hq. apply elem_of_cons in Hq as [->|Hq]; [by left|].
        right. apply Hqueue, elem_of_app. by left.
      * intros d p Hd Hp.
        assert (Hd' : d ∈ {[c]} ∪ done ∨
                      d ∈ walk fuel (list_to_set new ∪ seen) (rest ++ new)).
        { destruct Hd as [Hd|Hd]; [left; set_solver|].
          apply elem_of_cons in Hd as [->|Hd]; [left; set_solver|by right]. }
        destruct (Hclosed d p Hd' Hp) as [Hp'|Hp'].
        -- apply elem_of_union in Hp' as [Hp'|Hp']; [|by left].
           apply elem_of_singleton in Hp' as ->. right. by left.
        -- right. by right.
Qed.

Lemma rev_list_unfold c :
  rev_list c = c :: iter_parents c.
Proof. reflexivity. Qed.

(** [git rev-list c] lists everything reached from [c]. *)
Lemma rev_list_complete c x : rtc is_parent c x → x ∈ rev_list c.
Proof.
  destruct (walk_closed (S (size all_parents)) {[c]} [c] ∅)
    as [Hqueue Hclosed].
  - simpl. apply le_n_S, subseteq_size. set_solver.
  - set_solver.
  - intros x' Hx'. right. set_solver.
  - fold (rev_list c) in Hqueue, Hclosed. revert x.
    apply rtc_ind_r; [|intros y z _ Hyz IH].
    + apply Hqueue. by left.
    + destruct (Hclosed y z (or_intror IH) Hyz) as [Hz|Hz]; [|done].
      by apply not_elem_of_empty in Hz.
Qed.

(** The commit itself is not among the commits [iter_parents] yields. *)
Lemma iter_parents_not_self c : c ∉ iter_parents c.
Proof.
  unfold iter_parents, rev_list. simpl. intros Hc.
  apply walk_unseen in Hc as [Hc|Hc].
  - apply fresh_spec in Hc as [_ Hc]. set_solver.
  - set_solver.
Qed.

Lemma iter_parents_ancestor c x : x ∈ iter_parents c → ancestor x c.
Proof.
  unfold iter_parents, rev_list. simpl. intros Hx.
  apply walk_sound in Hx as (q & Hq & Hreach).
  apply fresh_spec in Hq as [Hq _].
  unfold ancestor. eapply tc_rtc_r; [|done]. by apply tc_once.
Qed.

Lemma ancestor_iter_parents c x :
  ancestor x c → x ≠ c → x ∈ iter_parents c.
Proof.
  intros Hanc Hne.
  assert (Hx : x ∈ rev_list c) by by apply rev_list_complete, tc_rtc.
  rewrite rev_list_unfold in Hx.
  apply elem_of_cons in Hx as [?|?]; done.
Qed.

(** What [iter_parents] yields: the ancestors other than the commit. *)
Lemma iter_parents_spec c x :
  x ∈ iter_parents c ↔ ancestor x c ∧ x ≠ c.
Proof.
  split.
  - intros Hx. split; [by apply iter_parents_ancestor|].
    intros ->. by apply iter_parents_not_self in Hx.
  - intros [? ?]. by apply ancestor_iter_parents.
Qed.

(** A graph whose parent steps decrease a rank has no cycle; commit
    graphs are such, hashes being computed from the parents. *)
Lemma acyclic_by_rank (rank : hash → nat) :
  (∀ c p, is_parent c p → rank p < rank c) → acyclic.
Proof.
  intros Hrank c Hc.
  assert (Hlt : ∀ x y, tc is_parent x y → rank y < rank x).
  { induction 1 as [x y Hxy|x y z Hxy _ IH].
    - by apply Hrank.
    - apply Hrank in Hxy. lia. }
  apply Hlt in Hc. lia.
Qed.

Lemma ancestor_generations a c :
  ancestor a c ↔ ∃ n, nsteps is_parent (S n) c a.
Proof.
  unfold ancestor. rewrite tc_nsteps. split.
  - intros (n & Hn & Hsteps). destruct n as [|n]; [lia|]. by exists n.
  - intros (n & Hsteps). exists (S n). split; [lia|done].
Qed.

End walk_facts.

(** ** The merge check *)

Lemma find_commit_spec commits branch_commit :
  find_commit commits branch_commit = true ↔ branch_commit ∈ commits.
Proof.
  induction commits as [|c rest IH]; simpl.
  - split; [done|]. intros H. by inversion H.
  - destruct (decide (c = branch_commit)) as [->|Hne].
    + split; [|done]. intros _. by left.
    + rewrite IH, elem_of_cons. naive_solver.
Qed.

(** The loop stops with [True] at the first commit that matches, whatever
    follows it. *)
Lemma find_commit_first pre post branch_commit :
  find_commit (pre ++ branch_commit :: post) branch_commit = true.
Proof. apply find_commit_spec, elem_of_app. right. by left. Qed.

Lemma branch_is_merged_resolved branch local_repo integration_branch c h :
  Repo.commit local_repo (Branch.commit branch) = Ok c →
  Repo.commit local_repo integration_branch = Ok h →
  branch_is_merged branch local_repo integration_branch
  = Ok (find_commit (Graph.iter_parents (Repo.objects local_repo) h) c).
Proof. intros Hc Hh. unfold branch_is_merged. by rewrite Hc, Hh. Qed.

(** The handler of [BadObject]. *)
Lemma branch_is_merged_bad_object branch local_repo integration_branch :
  Repo.commit local_repo (Branch.commit branch) = Raise BadObject →
  branch_is_merged branch local_repo integration_branch = Ok false.
Proof. unfold branch_is_merged. by intros ->. Qed.

(** A branch at the very commit the integration branch points to is told
    to be unmerged: the walk starts below that commit. *)
Lemma branch_is_merged_head branch local_repo integration_branch h :
  Repo.commit local_repo (Branch.commit branch) = Ok h →
  Repo.commit local_repo integration_branch = Ok h →
  branch_is_merged branch local_repo integration_branch = Ok false.
Proof.
  intros Hc Hh. rewrite (branch_is_merged_resolved _ _ _ h h) by done.
  f_equal. apply not_true_is_false. rewrite find_commit_spec.
  apply iter_parents_not_self.
Qed.

Lemma sample_acyclic : Graph.acyclic Sample.commits.
Proof.
  apply (acyclic_by_rank _ Sample.rank). intros c p.
  unfold Graph.is_parent, Graph.parents_of.
  destruct (Sample.commits !! c) as [ps|] eqn:Hc; simpl;
    [|intros Hp; by inversion Hp].
  apply elem_of_map_to_list in Hc. vm_compute map_to_list in Hc.
  repeat (apply elem_of_cons in Hc as [[= -> ->]|Hc]);
    [..|by inversion Hc]; intros Hp;
    repeat (apply elem_of_cons in Hp as [->|Hp]);
    try (by inversion Hp); vm_compute; lia.
Qed.

(** C1 (fails on the code): the branch [feature] of a fork is at [c3], the
    commit that [main] points to in the local repository, and
    [branch_is_merged] answers [False]. *)
Theorem branch_is_merged_at_head_is_false :
  Repo.commit Sample.repo (JStr Sample.c3)
  = Repo.commit Sample.repo (JStr "main")
  ∧ branch_is_merged (Branch.make (JStr "feature") (JStr Sample.c3))
      Sample.repo (JStr "main") = Ok false.
Proof. split; by vm_compute. Qed.

(** C2: when the commit of the branch and the integration branch both
    resolve in a local repository (whose history has no cycle),
    [branch_is_merged] returns [True] exactly when the commit is an
    ancestor of the head of the integration branch, whatever the number
    of generations between them, and [False] exactly when it is not. *)
Theorem branch_is_merged_iff_ancestor
    branch local_repo integration_branch c h :
  Graph.acyclic (Repo.objects local_repo) →
  Repo.commit local_repo (Branch.commit branch) = Ok c →
  Repo.commit local_repo integration_branch = Ok h →
  (branch_is_merged branch local_repo integration_branch = Ok true
   ↔ Graph.ancestor (Repo.objects local_repo) c h)
  ∧ (branch_is_merged branch local_repo integration_branch = Ok false
     ↔ ¬ Graph.ancestor (Repo.objects local_repo) c h)
  ∧ (∀ n, nsteps (Graph.is_parent (Repo.objects local_repo)) (S n) h c →
          branch_is_merged branch local_repo integration_branch = Ok true)
  ∧ (∀ pre post,
       Graph.iter_parents (Repo.objects local_repo) h = pre ++ c :: post →
       branch_is_merged branch local_repo integration_branch = Ok true).
Proof.
  intros Hacyclic Hc Hh.
  rewrite (branch_is_merged_resolved _ _ _ c h) by done.
  set (g := Repo.objects local_repo) in *.
  assert (Hspec : find_commit (Graph.iter_parents g h) c = true
                  ↔ Graph.ancestor g c h).
  { rewrite find_commit_spec, iter_parents_spec. split; [by intros [? _]|].
    intros Hanc. split; [done|]. intros ->. by apply (Hacyclic h). }
  split; [|split; [|split]].
  - rewrite <- Hspec. split; [by intros [= ->]|by intros ->].
  - rewrite <- Hspec. split.
    + intros [= ->]. done.
    + intros Hne. by destruct (find_commit _ _).
  - intros n Hsteps. f_equal. apply Hspec, ancestor_generations. by exists n.
  - intros pre post ->. f_equal. apply find_commit_first.
Qed.

Lemma branch_is_merged_iff_ancestor_witness :
  branch_is_merged (Branch.make (JStr "topic") (JStr Sample.c1))
    Sample.repo (JStr "main") = Ok true
  ↔ Graph.ancestor Sample.commits Sample.c1 Sample.c3.
Proof.
  apply (branch_is_merged_iff_ancestor
           (Branch.make (JStr "topic") (JStr Sample.c1))
           Sample.repo (JStr "main") Sample.c1 Sample.c3).
  - apply sample_acyclic.
  - vm_compute. reflexivity.
  - vm_compute. reflexivity.
Defined.

Lemma prefix_refl s : String.prefix s s = true.
Proof.
  induction s as [|a s IH]; simpl; [done|].
  by destruct (Ascii.ascii_dec a a).
Qed.

(** What GitPython raises for a commit that the repository does not
    have: [ValueError] for a hash of forty digits, [BadName] for a
    shorter one. *)
Lemma name_to_object_absent objects refs name :
  Git.absent objects refs name →
  Git.name_to_object objects refs name
  = Raise (if String.length name =? 40 then ValueError else BadName).
Proof.
  intros (_ & Hhex & Hnone & Href). unfold Git.name_to_object.
  rewrite Hhex. simpl.
  destruct (String.length name =? 40) eqn:Hlen.
  - destruct (decide (Git.lower name ∈ dom objects)) as [Hin|]; [|done].
    exfalso.
    assert (Hf : Git.lower name
                 ∈ List.filter (String.prefix (Git.lower name))
                     (elements (dom objects))).
    { apply list_elem_of_In, filter_In. split.
      - by apply list_elem_of_In, elem_of_elements.
      - apply prefix_refl. }
    rewrite Hnone in Hf. by inversion Hf.
  - rewrite Href. unfold Git.short_to_long. by rewrite Hnone.
Qed.

(** [except BadObject] does not catch what the lookup of an absent commit
    raises: [branch_is_merged] raises it. *)
Lemma branch_is_merged_absent
    objects refs other branch name integration_branch :
  Branch.commit branch = JStr name →
  Git.absent objects refs name →
  branch_is_merged branch (Git.repo objects refs other) integration_branch
  = Raise (if String.length name =? 40 then ValueError else BadName).
Proof.
  intros Hname Habsent. unfold branch_is_merged. simpl.
  rewrite Hname. simpl. destruct Habsent as (Hplain & Habsent').
  rewrite Hplain.
  rewrite (name_to_object_absent objects refs name)
    by (split; [done|exact Habsent']).
  by destruct (String.length name =? 40).
Qed.

(** C3 (fails on the code): the local repository has no commit [abc123]
    and no commit [abab...ab]; for a branch at the first
    [branch_is_merged] raises [BadName], for a branch at the second
    [ValueError], where the comment of the handler says that such a
    branch cannot be merged and [False] is to be returned. *)
Theorem branch_is_merged_absent_commit_raises :
  Git.absent Sample.commits Sample.refs "abc123"
  ∧ branch_is_merged (Sample.branch "feature" "abc123")
      Sample.repo (JStr "main") = Raise BadName
  ∧ Git.absent Sample.commits Sample.refs Sample.gone
  ∧ branch_is_merged (Sample.branch "feature" Sample.gone)
      Sample.repo (JStr "main") = Raise ValueError.
Proof.
  split; [|split; [|split]].
  - by vm_compute.
  - by vm_compute.
  - by vm_compute.
  - by vm_compute.
Qed.

(** The integration branch is looked up after the commit of the branch:
    when it does not resolve, its exception is raised for a branch whose
    commit is found, and what [branch_is_merged] raises is either that or
    what the lookup of the commit of the branch raised. *)
Lemma branch_is_merged_lookup_order
    branch local_repo integration_branch e :
  Repo.commit local_repo integration_branch = Raise e →
  (∀ c, Repo.commit local_repo (Branch.commit branch) = Ok c →
        branch_is_merged branch local_repo integration_branch = Raise e)
  ∧ (∀ e', branch_is_merged branch local_repo integration_branch = Raise e' →
           (∃ c, Repo.commit local_repo (Branch.commit branch) = Ok c
                 ∧ e' = e)
           ∨ (Repo.commit local_repo (Branch.commit branch) = Raise e'
              ∧ e' ≠ BadObject)).
Proof.
  intros Hh. unfold branch_is_merged. rewrite Hh.
  destruct (Repo.commit local_repo (Branch.commit branch)) as [c|e0];
    simpl.
  - split; [done|]. intros e' [= <-]. left. by exists c.
  - split; [done|].
    intros e'. destruct e0; intros [= <-]; by right.
Qed.

(** C9 (fails on the code): with an integration ref that does not
    resolve, a branch at a commit that the local repository does not
    have is not told unmerged: the lookup of its commit raises, before
    the integration ref is looked at ([ValueError] for the hash of forty
    digits, where the ref would raise [BadName]). *)
Theorem branch_is_merged_absent_commit_invalid_ref :
  Repo.commit Sample.repo (JStr "no-such-ref") = Raise BadName
  ∧ Git.absent Sample.commits Sample.refs Sample.gone
  ∧ branch_is_merged (Sample.branch "feature" Sample.gone)
      Sample.repo (JStr "no-such-ref") = Raise ValueError
  ∧ Git.absent Sample.commits Sample.refs "abc123"
  ∧ branch_is_merged (Sample.branch "feature" "abc123")
      Sample.repo (JStr "no-such-ref") = Raise BadName.
Proof.
  split; [|split; [|split; [|split]]].
  - by vm_compute.
  - by vm_compute.
  - by vm_compute.
  - by vm_compute.
  - by vm_compute.
Qed.

(** ** Computations *)

Lemma run_eta {A} (m : run A) : m = Run (trace m) (outcome m).
Proof. by destruct m. Qed.

Lemma bind_ok {A B} (m : run A) (f : A → run B) t a :
  m = Run t (Ok a) →
  m ≫= f = Run (t ++ trace (f a)) (outcome (f a)).
Proof. by intros ->. Qed.

(** No computation handles what an earlier one raised. *)
Lemma bind_raise {A B} (m : run A) (f : A → run B) t e :
  m = Run t (Raise e) → m ≫= f = Run t (Raise e).
Proof. by intros ->. Qed.

Lemma bind_ok_inv {A B} (m : run A) (f : A → run B) t b :
  m ≫= f = Run t (Ok b) →
  ∃ t1 a t2, m = Run t1 (Ok a) ∧ f a = Run t2 (Ok b) ∧ t = t1 ++ t2.
Proof.
  destruct m as [t1 [a|e]]; unfold mbind, run_bind; simpl; [|done].
  intros [= <- Hout]. exists t1, a, (trace (f a)).
  split; [done|]. split; [|done]. rewrite (run_eta (f a)). by rewrite Hout.
Qed.

Lemma bind_assoc {A B C} (m : run A) (f : A → run B) (h : B → run C) :
  (m ≫= f) ≫= h = m ≫= (λ a, f a ≫= h).
Proof.
  destruct m as [t1 [a|e]]; unfold mbind, run_bind; simpl; [|done].
  destruct (f a) as [t2 [b|e]]; simpl; [|done].
  by rewrite app_assoc.
Qed.

Lemma bind_ext {A B} (m : run A) (f h : A → run B) :
  (∀ a, f a = h a) → m ≫= f = m ≫= h.
Proof.
  intros Hfh. destruct m as [t [a|e]]; unfold mbind, run_bind; simpl; [|done].
  by rewrite Hfh.
Qed.

Lemma output_app t1 t2 : output (t1 ++ t2) = output t1 ++ output t2.
Proof. apply omap_app. Qed.

Lemma output_prints lines : output (Print <$> lines) = lines.
Proof. induction lines as [|l lines IH]; simpl; [done|]. by f_equal. Qed.

(** ** The comprehension and the set *)

Lemma select_unmerged_ok branches local_repo integration_branch seen kept :
  select_unmerged branches local_repo integration_branch seen = Ok kept →
  ∃ bs, branches = Ok <$> bs
        ∧ kept = List.filter
                   (unmerged_and_new local_repo integration_branch seen) bs.
Proof.
  revert kept. induction branches as [|next rest IH]; intros kept; simpl.
  - intros [= <-]. by exists [].
  - destruct next as [branch|e]; [|done]. simpl.
    unfold unmerged_and_new at 1, not_in.
    destruct (branch_is_merged branch _ _) as [[|]|e] eqn:Hm; simpl; [..|done].
    + destruct (select_unmerged rest _ _ _) as [selected|e]; [|done].
      simpl. intros [= <-]. destruct (IH selected eq_refl) as (bs & -> & ->).
      exists (branch :: bs). split; [done|]. simpl.
      unfold unmerged_and_new at 1. by rewrite Hm.
    + destruct (py_hash (Branch.commit branch)) as [k|e] eqn:Hk; [|done].
      simpl.
      destruct (select_unmerged rest _ _ _) as [selected|e]; [|done].
      simpl. intros [= <-]. destruct (IH selected eq_refl) as (bs & -> & ->).
      exists (branch :: bs). split; [done|]. simpl.
      unfold unmerged_and_new at 1. rewrite Hm, Hk.
      by destruct (bool_decide _).
Qed.

(** What raises for a branch raises for the comprehension, when nothing
    raised for the branches before it. *)
Lemma select_unmerged_raise
    before branch after local_repo integration_branch seen kept e :
  select_unmerged before local_repo integration_branch seen = Ok kept →
  branch_is_merged branch local_repo integration_branch = Raise e →
  select_unmerged (before ++ Ok branch :: after)
    local_repo integration_branch seen = Raise e.
Proof.
  intros Hbefore Hm. revert kept Hbefore.
  induction before as [|next rest IH]; intros kept; simpl.
  - intros _. by rewrite Hm.
  - destruct next as [b|e0]; [|done]. simpl.
    destruct (branch_is_merged b _ _) as [merged|e0]; [|done]. simpl.
    destruct (if negb merged then _ else _) as [keep|e0]; [|done]. simpl.
    destruct (select_unmerged rest _ _ _) as [selected|e0] eqn:Hrest; [|done].
    intros _. by rewrite (IH selected).
Qed.

Lemma update_ok seen xs seen' :
  update seen xs = Ok seen' →
  ∀ k, k ∈ seen' ↔ k ∈ seen ∨ ∃ x, x ∈ xs ∧ py_hash x = Ok k.
Proof.
  revert seen. induction xs as [|x xs IH]; intros seen; simpl.
  - intros [= <-] k. split; [by left|]. intros [?|(x & Hx & _)]; [done|].
    by inversion Hx.
  - destruct (py_hash x) as [kx|e] eqn:Hkx; [|done]. simpl.
    intros Hup k. rewrite (IH _ Hup k), elem_of_union, elem_of_singleton.
    split.
    + intros [[->|?]|(y & Hy & Hk)]; [right|by left|right].
      * exists x. split; [by left|done].
      * exists y. split; [by right|done].
    + intros [?|(y & Hy & Hk)]; [left; by right|].
      apply elem_of_cons in Hy as [->|Hy].
      * left. left. congruence.
      * right. by exists y.
Qed.

Lemma bind_lift_ok {A B} (a : A) (f : A → run B) : lift (Ok a) ≫= f = f a.
Proof. unfold mbind, run_bind. simpl. by destruct (f a). Qed.

Lemma bind_mret {A B} (a : A) (f : A → run B) : mret a ≫= f = f a.
Proof. apply bind_lift_ok. Qed.

Lemma filter_sublist {A} (f : A → bool) (l : list A) :
  sublist (List.filter f l) l.
Proof.
  induction l as [|x l IH]; simpl; [done|].
  destruct (f x); by constructor.
Qed.

Lemma filter_elem_of {A} (f : A → bool) (l : list A) x :
  x ∈ List.filter f l ↔ x ∈ l ∧ f x = true.
Proof. by rewrite !list_elem_of_In, filter_In. Qed.

Lemma unmerged_and_new_true local_repo integration_branch seen branch :
  unmerged_and_new local_repo integration_branch seen branch = true ↔
  branch_is_merged branch local_repo integration_branch = Ok false
  ∧ ∃ k, py_hash (Branch.commit branch) = Ok k ∧ k ∉ seen.
Proof.
  unfold unmerged_and_new.
  destruct (branch_is_merged _ _ _) as [[|]|e]; [naive_solver| |naive_solver].
  destruct (py_hash _) as [k|e]; [|naive_solver].
  rewrite bool_decide_eq_true. naive_solver.
Qed.

Lemma branch_is_merged_commit_only b1 b2 local_repo integration_branch :
  Branch.commit b1 = Branch.commit b2 →
  branch_is_merged b1 local_repo integration_branch
  = branch_is_merged b2 local_repo integration_branch.
Proof. unfold branch_is_merged. by intros ->. Qed.

(** ** The requests *)

Section program_facts.
Variable str_other : json → string.
Variable api : string → result Response.t.
Variable cwd_repo : Repo.t.

Local Abbreviation py_str := (py_str str_other).
Local Abbreviation get_forks := (get_forks str_other api).
Local Abbreviation get_branches := (get_branches str_other api).
Local Abbreviation main_body := (main_body str_other api).
Local Abbreviation main_loop := (main_loop str_other api).
Local Abbreviation main := (main str_other api cwd_repo).
Local Abbreviation report_lines := (report_lines str_other).

Lemma print_branches_eq unmerged_branches :
  print_branches str_other unmerged_branches
  = Run (Print <$> ((λ branch, "  " +:+ py_str (Branch.name branch))
                      <$> unmerged_branches))
        (Ok ()).
Proof.
  induction unmerged_branches as [|branch rest IH]; [done|].
  simpl. by rewrite IH.
Qed.

Lemma print_report_eq fork unmerged_branches :
  print_report str_other fork unmerged_branches
  = Run (Print <$> report_lines fork unmerged_branches) (Ok ()).
Proof.
  destruct unmerged_branches as [|branch rest]; [done|].
  unfold print_report. by rewrite print_branches_eq.
Qed.

Lemma get_forks_eq repository :
  get_forks repository
  = Run [HttpGet (API_URL +:+ forks_path
                    (py_str (Repository.owner repository))
                    (py_str (Repository.name repository)))]
        (match response_items api
                 (API_URL +:+ forks_path
                    (py_str (Repository.owner repository))
                    (py_str (Repository.name repository))) with
         | Ok items => Ok (fork_of <$> items)
         | Raise e => Raise e
         end).
Proof.
  unfold fork_queue.get_forks, requests_get, response_items, forks_path.
  destruct (api _) as [[[body|e]]|e]; [|done..].
  unfold mbind, run_bind; simpl.
  by destruct (py_iter body).
Qed.

Lemma get_branches_eq repository :
  get_branches repository
  = Run [HttpGet (API_URL +:+ branches_path
                    (py_str (Repository.owner repository))
                    (py_str (Repository.name repository)))]
        (match response_items api
                 (API_URL +:+ branches_path
                    (py_str (Repository.owner repository))
                    (py_str (Repository.name repository))) with
         | Ok items => Ok (branch_of <$> items)
         | Raise e => Raise e
         end).
Proof.
  unfold fork_queue.get_branches, requests_get, response_items, branches_path.
  destruct (api _) as [[[body|e]]|e]; [|done..].
  unfold mbind, run_bind; simpl.
  by destruct (py_iter body).
Qed.

(** C7: each generator sends one request, to the path of the forks or of
    the branches with [per_page=100], whatever the answer; from an answer
    that is a JSON array it yields one record for every element, made of
    [owner.login] and [name], or of [name] and [commit.sha]. *)
Theorem one_request_one_record_per_element repository :
  trace (get_forks repository)
  = [HttpGet (API_URL +:+ forks_path (py_str (Repository.owner repository))
                                     (py_str (Repository.name repository)))]
  ∧ trace (get_branches repository)
    = [HttpGet (API_URL +:+ branches_path
                  (py_str (Repository.owner repository))
                  (py_str (Repository.name repository)))]
  ∧ (∀ items,
       api (API_URL +:+ forks_path (py_str (Repository.owner repository))
                                   (py_str (Repository.name repository)))
       = Ok (Response.make (Ok (JArr items))) →
       outcome (get_forks repository) = Ok (fork_of <$> items))
  ∧ (∀ items,
       api (API_URL +:+ branches_path (py_str (Repository.owner repository))
                                      (py_str (Repository.name repository)))
       = Ok (Response.make (Ok (JArr items))) →
       outcome (get_branches repository) = Ok (branch_of <$> items))
  ∧ (∀ repo owner login name,
       getitem repo "owner" = Ok owner → getitem owner "login" = Ok login →
       getitem repo "name" = Ok name →
       fork_of repo = Ok (Repository.make login name))
  ∧ (∀ branch name commit sha,
       getitem branch "name" = Ok name → getitem branch "commit" = Ok commit →
       getitem commit "sha" = Ok sha →
       branch_of branch = Ok (Branch.make name sha)).
Proof.
  rewrite get_forks_eq, get_branches_eq. simpl.
  split; [done|]. split; [done|]. unfold response_items.
  split; [by intros items ->|]. split; [by intros items ->|].
  split.
  - intros repo owner login name Ho Hl Hn. unfold fork_of.
    by rewrite Ho; simpl; rewrite Hl; simpl; rewrite Hn.
  - intros branch name commit sha Hn Hc Hs. unfold branch_of.
    by rewrite Hn; simpl; rewrite Hc; simpl; rewrite Hs.
Qed.

(** ** The loop of [main] *)

Lemma main_body_ok local_repo integration_branch fork st t st' :
  main_body local_repo integration_branch fork st = Run t (Ok st') →
  ∃ bs kept,
    outcome (get_branches fork) = Ok (Ok <$> bs)
    ∧ kept = List.filter
               (unmerged_and_new local_repo integration_branch
                  (all_unmerged st)) bs
    ∧ update (all_unmerged st) (Branch.commit <$> kept)
      = Ok (all_unmerged st')
    ∧ reported st' = reported st ++ [(fork, kept)]
    ∧ t = trace (get_branches fork) ++ (Print <$> report_lines fork kept).
Proof.
  unfold fork_queue.main_body. intros H.
  apply bind_ok_inv in H as (t1 & branches & t2 & Hget & H & ->).
  apply bind_ok_inv in H as (t3 & kept & t4 & [= <- Hsel] & H & ->).
  apply bind_ok_inv in H as (t5 & seen' & t6 & [= <- Hup] & H & ->).
  rewrite print_report_eq in H.
  apply bind_ok_inv in H as (t7 & [] & t8 & [= <-] & [= <- <-] & ->).
  apply select_unmerged_ok in Hsel as (bs & -> & Hkept).
  exists bs, kept. rewrite Hget. simpl.
  split; [done|]. split; [done|]. split; [done|]. split; [done|].
  by rewrite app_nil_r.
Qed.

Lemma main_loop_cons local_repo integration_branch fork rest st :
  main_loop local_repo integration_branch (Ok fork :: rest) st
  = main_body local_repo integration_branch fork st
    ≫= main_loop local_repo integration_branch rest.
Proof. exact (bind_lift_ok fork _). Qed.

(** Processing [before ++ rest] is processing [before] and going on with
    [rest] from the state reached. *)
Lemma main_loop_app local_repo integration_branch before rest st :
  main_loop local_repo integration_branch (before ++ rest) st
  = main_loop local_repo integration_branch before st
    ≫= main_loop local_repo integration_branch rest.
Proof.
  revert st. induction before as [|[fork|e] before IH]; intros st.
  - symmetry. exact (bind_mret st _).
  - rewrite <- app_comm_cons, !main_loop_cons, bind_assoc.
    apply bind_ext. intros st'. apply IH.
  - done.
Qed.

Lemma main_body_inv local_repo integration_branch fork st t st' :
  main_body local_repo integration_branch fork st = Run t (Ok st') →
  holds_reported st →
  reported_once (reported st) →
  reported_unmerged local_repo integration_branch (reported st) →
  holds_reported st'
  ∧ reported_once (reported st')
  ∧ reported_unmerged local_repo integration_branch (reported st').
Proof.
  intros Hbody Hholds Honce Hunm.
  apply main_body_ok in Hbody as (bs & kept & _ & Hkept & Hup & Hrep & _).
  assert (Hin : ∀ b, b ∈ kept →
            branch_is_merged b local_repo integration_branch = Ok false
            ∧ ∃ k, py_hash (Branch.commit b) = Ok k ∧ k ∉ all_unmerged st).
  { intros b Hb. rewrite Hkept in Hb. apply filter_elem_of in Hb as [_ Hb].
    by apply unmerged_and_new_true. }
  rewrite Hrep. split; [|split].
  - intros k. rewrite (update_ok _ _ _ Hup k), (Hholds k). split.
    + intros [(f & u & b & Hfu & Hb & Hk)|(x & Hx & Hk)].
      * exists f, u, b. rewrite Hrep, elem_of_app. auto.
      * apply list_elem_of_fmap in Hx as (b & -> & Hb).
        exists fork, kept, b.
        rewrite Hrep, elem_of_app, list_elem_of_singleton. auto.
    + intros (f & u & b & Hfu & Hb & Hk). rewrite Hrep in Hfu.
      apply elem_of_app in Hfu as [Hfu|Hfu].
      * left. by exists f, u, b.
      * apply list_elem_of_singleton in Hfu as [= -> ->]. right.
        exists (Branch.commit b). split; [|done].
        apply list_elem_of_fmap. by exists b.
  - intros i j f1 u1 f2 u2 b1 b2 Hij Hi Hj Hb1 Hb2.
    destruct (decide (j < length (reported st))) as [Hlt|Hge].
    + rewrite lookup_app_l in Hi, Hj by lia.
      exact (Honce i j f1 u1 f2 u2 b1 b2 Hij Hi Hj Hb1 Hb2).
    + rewrite lookup_app_r in Hj by lia.
      apply list_lookup_singleton_Some in Hj as [Hj [= <- <-]].
      rewrite lookup_app_l in Hi by lia.
      destruct (Hin b2 Hb2) as (_ & k & Hk & Hnew). rewrite Hk.
      intros Hk1. apply Hnew, Hholds. exists f1, u1, b1.
      split; [|done]. by eapply list_elem_of_lookup_2.
  - intros f u b Hfu Hb. apply elem_of_app in Hfu as [Hfu|Hfu].
    + by eapply Hunm.
    + apply list_elem_of_singleton in Hfu as [= -> ->]. by apply Hin.
Qed.

Lemma main_loop_inv local_repo integration_branch forks st t st' :
  main_loop local_repo integration_branch forks st = Run t (Ok st') →
  holds_reported st →
  reported_once (reported st) →
  reported_unmerged local_repo integration_branch (reported st) →
  holds_reported st'
  ∧ reported_once (reported st')
  ∧ reported_unmerged local_repo integration_branch (reported st').
Proof.
  revert st t. induction forks as [|[fork|e] forks IH]; intros st t.
  - intros [= <- <-]. done.
  - rewrite main_loop_cons. intros Hloop Hholds Honce Hunm.
    apply bind_ok_inv in Hloop as (t1 & st1 & t2 & Hbody & Hloop & ->).
    destruct (main_body_inv _ _ _ _ _ _ Hbody Hholds Honce Hunm)
      as (? & ? & ?).
    by eapply IH.
  - done.
Qed.

Lemma initial_state_inv local_repo integration_branch :
  holds_reported (LoopState ∅ [])
  ∧ reported_once []
  ∧ reported_unmerged local_repo integration_branch [].
Proof.
  split; [|split].
  - intros k. simpl. split; [set_solver|].
    intros (f & u & b & Hfu & _). by inversion Hfu.
  - intros i j f1 u1 f2 u2 b1 b2 _ Hi. done.
  - intros f u b Hfu. by inversion Hfu.
Qed.

Lemma main_body_intro
    local_repo integration_branch fork st branches kept seen' :
  outcome (get_branches fork) = Ok branches →
  select_unmerged branches local_repo integration_branch (all_unmerged st)
  = Ok kept →
  update (all_unmerged st) (Branch.commit <$> kept) = Ok seen' →
  main_body local_repo integration_branch fork st
  = Run (trace (get_branches fork) ++ (Print <$> report_lines fork kept))
        (Ok (LoopState seen' (reported st ++ [(fork, kept)]))).
Proof.
  intros Hget Hsel Hup. unfold fork_queue.main_body.
  rewrite (bind_ok _ _ (trace (get_branches fork)) branches)
    by by rewrite (run_eta (get_branches fork)), Hget.
  rewrite Hsel. unfold lift, mbind, run_bind. simpl outcome. cbv beta iota.
  rewrite Hup, print_report_eq. simpl. by rewrite !app_nil_r.
Qed.

Lemma get_branches_output repository :
  output (trace (get_branches repository)) = [].
Proof. by rewrite get_branches_eq. Qed.

Lemma main_loop_ok local_repo integration_branch forks st t st' :
  main_loop local_repo integration_branch forks st = Run t (Ok st') →
  ∃ its,
    forks = Ok <$> its.*1
    ∧ reported st' = reported st ++ its
    ∧ output t = concat ((λ it, report_lines it.1 it.2) <$> its)
    ∧ Forall (λ it, ∃ bs, outcome (get_branches it.1) = Ok (Ok <$> bs)
                          ∧ sublist it.2 bs) its.
Proof.
  revert st t. induction forks as [|[fork|e] forks IH]; intros st t.
  - intros [= <- <-]. exists []. by rewrite app_nil_r.
  - rewrite main_loop_cons. intros Hloop.
    apply bind_ok_inv in Hloop as (t1 & st1 & t2 & Hbody & Hloop & ->).
    apply main_body_ok in Hbody as (bs & kept & Hget & Hkept & _ & Hrep & ->).
    apply IH in Hloop as (its & -> & Hrep' & Hout & Hall).
    exists ((fork, kept) :: its). split; [done|]. split; [|split].
    + by rewrite Hrep', Hrep, <- app_assoc.
    + rewrite !output_app, get_branches_output, output_prints, Hout. done.
    + constructor; [|done]. exists bs. split; [done|]. simpl.
      rewrite Hkept. apply filter_sublist.
  - done.
Qed.

Lemma main_loop_raise
    local_repo integration_branch before fork rest st t1 st1 t2 e :
  main_loop local_repo integration_branch before st = Run t1 (Ok st1) →
  main_body local_repo integration_branch fork st1 = Run t2 (Raise e) →
  main_loop local_repo integration_branch (before ++ Ok fork :: rest) st
  = Run (t1 ++ t2) (Raise e).
Proof.
  intros Hbefore Hbody.
  rewrite main_loop_app, (bind_ok _ _ _ _ Hbefore), main_loop_cons.
  by rewrite (bind_raise _ _ _ _ Hbody).
Qed.

Lemma main_body_raise_request local_repo integration_branch fork st e :
  outcome (get_branches fork) = Raise e →
  main_body local_repo integration_branch fork st
  = Run (trace (get_branches fork)) (Raise e).
Proof.
  intros Hget. unfold fork_queue.main_body. apply bind_raise.
  by rewrite (run_eta (get_branches fork)), Hget.
Qed.

Lemma main_body_raise_select
    local_repo integration_branch fork st branches e :
  outcome (get_branches fork) = Ok branches →
  select_unmerged branches local_repo integration_branch (all_unmerged st)
  = Raise e →
  main_body local_repo integration_branch fork st
  = Run (trace (get_branches fork)) (Raise e).
Proof.
  intros Hget Hsel. unfold fork_queue.main_body.
  rewrite (bind_ok _ _ (trace (get_branches fork)) branches)
    by by rewrite (run_eta (get_branches fork)), Hget.
  rewrite Hsel. simpl. by rewrite app_nil_r.
Qed.

Lemma main_finish repository integration_branch forks t r :
  outcome (get_forks repository) = Ok forks →
  main_loop cwd_repo integration_branch forks (LoopState ∅ []) = Run t r →
  main repository integration_branch
  = Run (trace (get_forks repository) ++ t)
        (match r with Ok _ => Ok () | Raise e => Raise e end).
Proof.
  intros Hget Hloop. unfold fork_queue.main.
  rewrite (bind_ok _ _ (trace (get_forks repository)) forks)
    by by rewrite (run_eta (get_forks repository)), Hget.
  rewrite Hloop. destruct r as [st|e]; simpl; [|done].
  by rewrite app_nil_r.
Qed.

Lemma main_ok_inv repository integration_branch t :
  main repository integration_branch = Run t (Ok ()) →
  ∃ forks t' st,
    outcome (get_forks repository) = Ok forks
    ∧ main_loop cwd_repo integration_branch forks (LoopState ∅ [])
      = Run t' (Ok st)
    ∧ t = trace (get_forks repository) ++ t'.
Proof.
  unfold fork_queue.main. intros H.
  apply bind_ok_inv in H as (t1 & forks & t2 & Hget & H & ->).
  apply bind_ok_inv in H as (t3 & st & t4 & Hloop & [= <-] & ->).
  exists forks, t3, st. rewrite Hget. simpl. by rewrite app_nil_r.
Qed.

Lemma main_raise_request repository integration_branch e :
  outcome (get_forks repository) = Raise e →
  main repository integration_branch
  = Run (trace (get_forks repository)) (Raise e).
Proof.
  intros Hget. unfold fork_queue.main. apply bind_raise.
  by rewrite (run_eta (get_forks repository)), Hget.
Qed.

End program_facts.

(** ** The loop when nothing raises *)

Lemma select_unmerged_total local_repo integration_branch seen bs :
  (∀ b, b ∈ bs → checks_return local_repo integration_branch b) →
  select_unmerged (Ok <$> bs) local_repo integration_branch seen
  = Ok (List.filter (unmerged_and_new local_repo integration_branch seen) bs).
Proof.
  induction bs as [|b bs IH]; intros Hbs; [done|].
  change (Ok <$> b :: bs) with (Ok b :: (Ok <$> bs)). simpl.
  rewrite IH by (intros b' Hb'; apply Hbs; by right).
  destruct (Hbs b) as (merged & Hm & Hk); [by left|].
  unfold unmerged_and_new at 2, not_in. rewrite Hm. simpl.
  destruct merged; simpl; [done|].
  destruct (Hk eq_refl) as [k ->]. simpl.
  by destruct (bool_decide (k ∉ seen)).
Qed.

Lemma update_kept local_repo integration_branch seen0 seen bs :
  update seen
    (Branch.commit <$>
       List.filter (unmerged_and_new local_repo integration_branch seen0) bs)
  = Ok (seen ∪ keys_of
          (List.filter
             (unmerged_and_new local_repo integration_branch seen0) bs)).
Proof.
  revert seen. induction bs as [|b bs IH]; intros seen; simpl.
  - f_equal. unfold keys_of. simpl. set_solver.
  - destruct (unmerged_and_new local_repo integration_branch seen0 b)
      eqn:Hnew; [|apply IH].
    apply unmerged_and_new_true in Hnew as (_ & k & Hk & _).
    change (Branch.commit <$> b :: ?l)
      with (Branch.commit b :: (Branch.commit <$> l)).
    simpl. rewrite Hk. simpl. rewrite IH. f_equal.
    unfold keys_of. simpl. rewrite Hk. simpl. set_solver.
Qed.

Lemma main_body_total
    str_other api local_repo integration_branch fork st bs :
  outcome (get_branches str_other api fork) = Ok (Ok <$> bs) →
  (∀ b, b ∈ bs → checks_return local_repo integration_branch b) →
  main_body str_other api local_repo integration_branch fork st
  = Run (fork_events str_other
           (fork, List.filter
                    (unmerged_and_new local_repo integration_branch
                       (all_unmerged st)) bs))
        (Ok (LoopState
               (all_unmerged st
                ∪ keys_of
                    (List.filter
                       (unmerged_and_new local_repo integration_branch
                          (all_unmerged st)) bs))
               (reported st
                ++ [(fork, List.filter
                             (unmerged_and_new local_repo integration_branch
                                (all_unmerged st)) bs)]))).
Proof.
  intros Hget Hbs.
  rewrite (main_body_intro _ _ _ _ _ _ _ _ _ Hget
             (select_unmerged_total _ _ _ _ Hbs)
             (update_kept _ _ _ _ _)).
  by rewrite get_branches_eq.
Qed.

Lemma main_loop_total
    str_other api local_repo integration_branch listing st :
  Forall (λ fb, outcome (get_branches str_other api fb.1) = Ok (Ok <$> fb.2)
                ∧ ∀ b, b ∈ fb.2 →
                       checks_return local_repo integration_branch b)
         listing →
  ∃ seen',
    main_loop str_other api local_repo integration_branch
      (Ok <$> listing.*1) st
    = Run (concat (fork_events str_other
                     <$> expected_report local_repo integration_branch
                           listing (all_unmerged st)))
          (Ok (LoopState seen'
                 (reported st
                  ++ expected_report local_repo integration_branch
                       listing (all_unmerged st)))).
Proof.
  intros Hall. revert st.
  induction Hall as [|[fork bs] listing [Hget Hbs] _ IH]; intros st.
  - exists (all_unmerged st). simpl. rewrite app_nil_r. by destruct st.
  - simpl in Hget, Hbs.
    change (Ok <$> ((fork, bs) :: listing).*1)
      with (Ok fork :: (Ok <$> listing.*1)).
    rewrite main_loop_cons.
    rewrite (bind_ok _ _ _ _ (main_body_total _ _ _ _ _ st _ Hget Hbs)).
    destruct (IH (LoopState
                    (all_unmerged st
                     ∪ keys_of
                         (List.filter
                            (unmerged_and_new local_repo integration_branch
                               (all_unmerged st)) bs))
                    (reported st
                     ++ [(fork, List.filter
                                  (unmerged_and_new local_repo
                                     integration_branch (all_unmerged st))
                                  bs)])))
      as [seen' Hloop].
    exists seen'. rewrite Hloop. simpl. by rewrite <- app_assoc.
Qed.

Lemma output_fork_events str_other its :
  output (concat (fork_events str_other <$> its))
  = concat ((λ it, report_lines str_other it.1 it.2) <$> its).
Proof.
  induction its as [|it its IH]; [done|].
  simpl. rewrite output_app, output_prints. by f_equal.
Qed.

Lemma report_lines_elem_of str_other fork kept b :
  b ∈ kept →
  ("  " +:+ py_str str_other (Branch.name b))
  ∈ report_lines str_other fork kept.
Proof.
  intros Hb. destruct kept as [|b0 kept]; [by inversion Hb|].
  unfold report_lines. right.
  apply (list_elem_of_fmap_2
           (λ branch, "  " +:+ py_str str_other (Branch.name branch))).
  done.
Qed.

(** ** The report of [main] *)

(** C4: when [main] has gone through the forks, what it printed is the
    report of the branches kept for each fork, and no branch kept for a
    fork has the commit of a branch kept for an earlier fork: a commit
    reported once is not reported again. *)
Theorem unmerged_commit_reported_once
    str_other api cwd_repo repository integration_branch forks t st :
  outcome (get_forks str_other api repository) = Ok forks →
  main_loop str_other api cwd_repo integration_branch forks (LoopState ∅ [])
  = Run t (Ok st) →
  main str_other api cwd_repo repository integration_branch
  = Run (trace (get_forks str_other api repository) ++ t) (Ok ())
  ∧ output t
    = concat ((λ it, report_lines str_other it.1 it.2) <$> reported st)
  ∧ reported_once (reported st).
Proof.
  intros Hget Hloop. split; [|split].
  - by rewrite (main_finish _ _ _ _ _ _ _ _ Hget Hloop).
  - apply main_loop_ok in Hloop as (its & _ & -> & -> & _). done.
  - destruct (initial_state_inv cwd_repo integration_branch) as (? & ? & ?).
    by destruct (main_loop_inv _ _ _ _ _ _ _ _ Hloop) as (_ & ? & _).
Qed.

Lemma unmerged_commit_reported_once_witness :
  output (trace (cli Sample.str_other Sample.api_two Sample.repo
                   "octo" "repo" "main"))
  = ["alice/repo:"; "  feature"]
  ∧ reported_once
      [(Repository.make (JStr "alice") (JStr "repo"),
        [Branch.make (JStr "feature") (JStr Sample.d1)]);
       (Repository.make (JStr "bob") (JStr "repo"), [])].
Proof.
  pose proof (unmerged_commit_reported_once
    Sample.str_other Sample.api_two Sample.repo
    (Repository.make (JStr "octo") (JStr "repo")) (JStr "main")
    [Ok (Repository.make (JStr "alice") (JStr "repo"));
     Ok (Repository.make (JStr "bob") (JStr "repo"))]
    [HttpGet (Sample.branches_url "alice");
     Print "alice/repo:"; Print "  feature";
     HttpGet (Sample.branches_url "bob")]
    (LoopState {[KStr Sample.d1]}
       [(Repository.make (JStr "alice") (JStr "repo"),
         [Branch.make (JStr "feature") (JStr Sample.d1)]);
        (Repository.make (JStr "bob") (JStr "repo"), [])])) as H.
  destruct H as (Hmain & _ & Honce).
  - vm_compute. reflexivity.
  - vm_compute. reflexivity.
  - split; [|exact Honce]. unfold cli. rewrite Hmain. vm_compute. reflexivity.
Defined.

(** C8 (amended): when the branches of a fork are fetched and checked
    without an exception, the body of the loop returns, and the branches
    it keeps and prints are all the branches of the fork that are told
    unmerged and whose commit was not in the set when the fork was
    reached.  The set does not change in between: every branch at an
    unmerged commit that was not reported for an earlier fork is
    reported, however many branches of the fork are at that commit, and
    of two branches of the fork at the same commit either both are
    reported or neither is. *)
Theorem no_deduplication_within_fork
    str_other api local_repo integration_branch fork st bs :
  outcome (get_branches str_other api fork) = Ok (Ok <$> bs) →
  (∀ b, b ∈ bs → checks_return local_repo integration_branch b) →
  ∃ kept seen',
    kept = List.filter
             (unmerged_and_new local_repo integration_branch
                (all_unmerged st)) bs
    ∧ main_body str_other api local_repo integration_branch fork st
      = Run (fork_events str_other (fork, kept))
            (Ok (LoopState seen' (reported st ++ [(fork, kept)])))
    ∧ output (fork_events str_other (fork, kept))
      = report_lines str_other fork kept
    ∧ (∀ b k, b ∈ bs →
         branch_is_merged b local_repo integration_branch = Ok false →
         py_hash (Branch.commit b) = Ok k → k ∉ all_unmerged st →
         b ∈ kept
         ∧ ("  " +:+ py_str str_other (Branch.name b))
           ∈ report_lines str_other fork kept)
    ∧ (∀ b1 b2, b1 ∈ bs → b2 ∈ bs →
         Branch.commit b1 = Branch.commit b2 → b1 ∈ kept → b2 ∈ kept).
Proof.
  intros Hget Hbs. do 2 eexists. split; [reflexivity|].
  split; [by apply main_body_total|]. split.
  { unfold fork_events. simpl. apply output_prints. }
  split.
  - intros b k Hb Hm Hk Hnew.
    assert (Hkept : b ∈ List.filter
                          (unmerged_and_new local_repo integration_branch
                             (all_unmerged st)) bs).
    { apply filter_elem_of. split; [done|].
      apply unmerged_and_new_true. split; [done|]. by exists k. }
    split; [done|]. by apply report_lines_elem_of.
  - intros b1 b2 _ Hb2 Heq Hb1. apply filter_elem_of in Hb1 as [_ Hb1].
    apply filter_elem_of. split; [done|].
    apply unmerged_and_new_true in Hb1 as (Hm & k & Hk & Hnew).
    apply unmerged_and_new_true. split.
    + by rewrite <- (branch_is_merged_commit_only b1 b2).
    + exists k. by rewrite <- Heq.
Qed.

Lemma no_deduplication_within_fork_witness :
  ∃ kept,
    Sample.branch "wip" Sample.d1 ∈ kept
    ∧ "  wip" ∈ report_lines Sample.str_other Sample.alice kept.
Proof.
  destruct (no_deduplication_within_fork
              Sample.str_other Sample.api_twins Sample.repo (JStr "main")
              Sample.alice (LoopState ∅ [])
              [Sample.branch "feature" Sample.d1;
               Sample.branch "wip" Sample.d1])
    as (kept & seen' & _ & _ & _ & Hall & _).
  - vm_compute. reflexivity.
  - intros b Hb. exists false.
    repeat (apply elem_of_cons in Hb as [->|Hb]);
      [| |by inversion Hb]; (split; [by vm_compute|]);
      intros _; by eexists.
  - exists kept.
    apply (Hall (Sample.branch "wip" Sample.d1) (KStr Sample.d1)).
    + right. left.
    + by vm_compute.
    + reflexivity.
    + set_solver.
Defined.

(** C8 as it is written fails twice.  The fork [bob/repo] has two
    branches at the unmerged commit [d1], which was reported for
    [alice/repo] before, and neither is printed.  The fork [alice/repo]
    has two branches at the unmerged commit [d1] and a third branch at a
    commit that the local repository does not have: [main] raises and
    prints nothing. *)
Lemma twins_of_later_fork_not_reported :
  ¬ twins_reported Sample.str_other Sample.api_late_twins Sample.repo
      Sample.octo (JStr "main")
  ∧ ¬ twins_reported Sample.str_other Cases.api_twins_then_absent
        Sample.repo Sample.octo (JStr "main").
Proof.
  split.
  - intros Htwins.
    specialize (Htwins
      [Ok Sample.alice; Ok Sample.bob] Sample.bob
      [Sample.branch "topic" Sample.d1; Sample.branch "wip" Sample.d1]
      0 1
      (Sample.branch "topic" Sample.d1) (Sample.branch "wip" Sample.d1)).
    assert (Hout :
      output (trace (main Sample.str_other Sample.api_late_twins Sample.repo
                       Sample.octo (JStr "main")))
      = ["alice/repo:"; "  feature"]) by (vm_compute; reflexivity).
    rewrite Hout in Htwins.
    assert (Hin : "  topic" ∈ ["alice/repo:"; "  feature"]).
    { apply Htwins; try (vm_compute; reflexivity); [|lia].
      right. left. }
    repeat (apply elem_of_cons in Hin as [Hin|Hin]; [discriminate Hin|]).
    by inversion Hin.
  - intros Htwins.
    specialize (Htwins
      [Ok Sample.alice] Sample.alice
      [Sample.branch "feature" Sample.d1; Sample.branch "wip" Sample.d1;
       Sample.branch "stale" "abc123"]
      0 1
      (Sample.branch "feature" Sample.d1) (Sample.branch "wip" Sample.d1)).
    assert (Hout :
      output (trace (main Sample.str_other Cases.api_twins_then_absent
                       Sample.repo Sample.octo (JStr "main")))
      = []) by (vm_compute; reflexivity).
    rewrite Hout in Htwins.
    assert (Hin : "  feature" ∈ @nil string).
    { apply Htwins; try (vm_compute; reflexivity); [|lia].
      left. }
    by inversion Hin.
Qed.



Lemma one_request_one_record_per_element_witness :
  outcome (get_forks Sample.str_other Sample.api_one
             (Repository.make (JStr "octo") (JStr "repo")))
  = Ok (fork_of <$> [Sample.fork_json "alice" "repo"]).
Proof.
  destruct (one_request_one_record_per_element
              Sample.str_other Sample.api_one
              (Repository.make (JStr "octo") (JStr "repo")))
    as (_ & _ & Hforks & _).
  apply Hforks. vm_compute. reflexivity.
Defined.

(** C5 (fails on the code): in the end-to-end example of the
    specification, one fork [alice/repo] with one branch [feature] at
    [abc123] and a local repository with the branch [main] and without
    that commit, [main] sends its two requests, raises [BadName] and has
    printed nothing, where the two lines [alice/repo:] and [  feature]
    are expected. *)
Theorem end_to_end_example_raises :
  Git.absent Sample.commits Sample.refs "abc123"
  ∧ cli Sample.str_other Sample.api_one Sample.repo "octo" "repo" "main"
    = Run [HttpGet Sample.forks_url; HttpGet (Sample.branches_url "alice")]
          (Raise BadName)
  ∧ output (trace (cli Sample.str_other Sample.api_one Sample.repo
                     "octo" "repo" "main")) = [].
Proof.
  split; [|split].
  - by vm_compute.
  - by vm_compute.
  - by vm_compute.
Qed.

(** C6: nothing in [main] handles an exception.  A request for the forks
    that fails, or a body that is not JSON, ends [main] with that
    exception after the one request.  When the loop has gone through the
    forks before some fork, a failing request for the branches of that
    fork, a body that is not JSON, or an integration ref that does not
    resolve at the first branch whose commit the local repository has,
    ends [main] with that exception: the request for the branches is the
    last event, nothing is sent again and nothing more is printed. *)
Theorem errors_propagate
    str_other api cwd_repo repository integration_branch :
  (∀ e, api (forks_request str_other repository) = Raise e →
        main str_other api cwd_repo repository integration_branch
        = Run [HttpGet (forks_request str_other repository)] (Raise e))
  ∧ (∀ response e,
       api (forks_request str_other repository) = Ok response →
       Response.json response = Raise e →
       main str_other api cwd_repo repository integration_branch
       = Run [HttpGet (forks_request str_other repository)] (Raise e))
  ∧ (∀ before fork rest t st,
       outcome (get_forks str_other api repository)
       = Ok (before ++ Ok fork :: rest) →
       main_loop str_other api cwd_repo integration_branch before
         (LoopState ∅ []) = Run t (Ok st) →
       (∀ e, api (branches_request str_other fork) = Raise e →
             main str_other api cwd_repo repository integration_branch
             = Run (HttpGet (forks_request str_other repository)
                      :: t ++ [HttpGet (branches_request str_other fork)])
                   (Raise e))
       ∧ (∀ response e,
            api (branches_request str_other fork) = Ok response →
            Response.json response = Raise e →
            main str_other api cwd_repo repository integration_branch
            = Run (HttpGet (forks_request str_other repository)
                     :: t ++ [HttpGet (branches_request str_other fork)])
                  (Raise e))
       ∧ (∀ earlier branch later kept c e,
            outcome (get_branches str_other api fork)
            = Ok (earlier ++ Ok branch :: later) →
            select_unmerged earlier cwd_repo integration_branch
              (all_unmerged st) = Ok kept →
            Repo.commit cwd_repo (Branch.commit branch) = Ok c →
            Repo.commit cwd_repo integration_branch = Raise e →
            main str_other api cwd_repo repository integration_branch
            = Run (HttpGet (forks_request str_other repository)
                     :: t ++ [HttpGet (branches_request str_other fork)])
                  (Raise e))).
Proof.
  unfold forks_request, branches_request.
  split; [|split].
  - intros e Hapi. rewrite main_raise_request with (e := e);
      rewrite get_forks_eq; [done|]. unfold response_items. by rewrite Hapi.
  - intros response e Hapi Hjson. rewrite main_raise_request with (e := e);
      rewrite get_forks_eq; [done|].
    unfold response_items. by rewrite Hapi, Hjson.
  - intros before fork rest t st Hget Hloop.
    assert (Hbody : ∀ e,
      main_body str_other api cwd_repo integration_branch fork st
      = Run (trace (get_branches str_other api fork)) (Raise e) →
      main str_other api cwd_repo repository integration_branch
      = Run (HttpGet (API_URL +:+ forks_path
                        (py_str str_other (Repository.owner repository))
                        (py_str str_other (Repository.name repository)))
               :: t ++ [HttpGet (API_URL +:+ branches_path
                          (py_str str_other (Repository.owner fork))
                          (py_str str_other (Repository.name fork)))])
            (Raise e)).
    { intros e Hbody.
      rewrite (main_finish _ _ _ _ _ _ _ _ Hget
                 (main_loop_raise _ _ _ _ _ _ rest _ _ _ _ _ Hloop Hbody)).
      by rewrite get_forks_eq, get_branches_eq. }
    split; [|split].
    + intros e Hapi. apply Hbody, main_body_raise_request.
      rewrite get_branches_eq. unfold response_items. by rewrite Hapi.
    + intros response e Hapi Hjson. apply Hbody, main_body_raise_request.
      rewrite get_branches_eq. unfold response_items. by rewrite Hapi, Hjson.
    + intros earlier branch later kept c e Hbranches Hsel Hc Hh.
      apply Hbody.
      apply (main_body_raise_select _ _ _ _ _ _ _ _ Hbranches).
      apply (select_unmerged_raise _ _ _ _ _ _ kept); [done|].
      unfold branch_is_merged. by rewrite Hc, Hh.
Qed.

Lemma errors_propagate_witness :
  cli Sample.str_other Sample.api_down Sample.repo "octo" "repo" "main"
  = Run [HttpGet Sample.forks_url] (Raise RequestException)
  ∧ cli Sample.str_other Sample.api_two Sample.repo
      "octo" "repo" "no-such-ref"
    = Run [HttpGet Sample.forks_url;
           HttpGet (Sample.branches_url "alice")]
          (Raise BadName).
Proof.
  split.
  - apply (errors_propagate Sample.str_other Sample.api_down Sample.repo
             Sample.octo (JStr "main")).
    reflexivity.
  - destruct (errors_propagate Sample.str_other Sample.api_two Sample.repo
                Sample.octo (JStr "no-such-ref")) as (_ & _ & H).
    destruct (H [] Sample.alice [Ok Sample.bob] [] (LoopState ∅ []))
      as (_ & _ & Href).
    + vm_compute. reflexivity.
    + reflexivity.
    + apply (Href [] (Sample.branch "feature" Sample.d1) [] [] Sample.d1).
      * vm_compute. reflexivity.
      * reflexivity.
      * vm_compute. reflexivity.
      * vm_compute. reflexivity.
Defined.

(** * Further facts *)

(** ** More on the merge check *)

Lemma walk_nil g fuel seen : Graph.walk g fuel seen [] = [].
Proof. by destruct fuel. Qed.

Lemma iter_parents_root g h :
  Graph.parents_of g h = [] → Graph.iter_parents g h = [].
Proof.
  intros Hroot. unfold Graph.iter_parents, Graph.rev_list. simpl.
  rewrite Hroot. simpl. apply walk_nil.
Qed.

(** When the head of the integration branch has no parent, as in a
    repository of one commit, every branch whose commit resolves is told
    unmerged. *)
Theorem branch_is_merged_root_head
    branch local_repo integration_branch c h :
  Repo.commit local_repo (Branch.commit branch) = Ok c →
  Repo.commit local_repo integration_branch = Ok h →
  Graph.parents_of (Repo.objects local_repo) h = [] →
  branch_is_merged branch local_repo integration_branch = Ok false.
Proof.
  intros Hc Hh Hroot. rewrite (branch_is_merged_resolved _ _ _ c h) by done.
  by rewrite (iter_parents_root _ _ Hroot).
Qed.

Lemma branch_is_merged_root_head_witness :
  branch_is_merged (Sample.branch "feature" Sample.c0)
    Cases.single_commit (JStr "main") = Ok false.
Proof.
  apply (branch_is_merged_root_head
           (Sample.branch "feature" Sample.c0)
           Cases.single_commit (JStr "main") Sample.c0 Sample.c0).
  - vm_compute. reflexivity.
  - vm_compute. reflexivity.
  - vm_compute. reflexivity.
Defined.

(** ** More on the comprehension and the set *)

Lemma update_total seen xs :
  Forall (λ x, ∃ k, py_hash x = Ok k) xs → ∃ seen', update seen xs = Ok seen'.
Proof.
  intros Hxs. revert seen.
  induction Hxs as [|x xs [k Hk] _ IH]; intros seen; simpl.
  - by eexists.
  - rewrite Hk. simpl. apply IH.
Qed.

Lemma kept_hashable local_repo integration_branch seen bs :
  Forall (λ x, ∃ k, py_hash x = Ok k)
    (Branch.commit <$>
       List.filter (unmerged_and_new local_repo integration_branch seen) bs).
Proof.
  apply Forall_forall. intros x Hx.
  apply list_elem_of_fmap in Hx as (b & -> & Hb).
  apply filter_elem_of in Hb as [_ Hb].
  apply unmerged_and_new_true in Hb as (_ & k & Hk & _). by exists k.
Qed.

(** Whether the comprehension raises does not depend on the set. *)
Lemma select_unmerged_rerun bs local_repo integration_branch seen kept seen' :
  select_unmerged (Ok <$> bs) local_repo integration_branch seen = Ok kept →
  select_unmerged (Ok <$> bs) local_repo integration_branch seen'
  = Ok (List.filter (unmerged_and_new local_repo integration_branch seen') bs).
Proof.
  revert kept. induction bs as [|b bs IH]; intros kept; [done|].
  change (Ok <$> b :: bs) with (Ok b :: (Ok <$> bs)). simpl.
  unfold unmerged_and_new at 1, not_in.
  destruct (branch_is_merged b _ _) as [[|]|e]; simpl; [| |done].
  - destruct (select_unmerged (Ok <$> bs) _ _ seen) as [sel|e] eqn:Hsel;
      simpl; [|done].
    intros _. by rewrite (IH sel).
  - destruct (py_hash (Branch.commit b)) as [k|e]; simpl; [|done].
    destruct (select_unmerged (Ok <$> bs) _ _ seen) as [sel|e] eqn:Hsel;
      simpl; [|done].
    intros _. rewrite (IH sel) by done. simpl.
    by destruct (bool_decide (k ∉ seen')).
Qed.

(** An element that cannot be made a [Branch] raises for the
    comprehension, when nothing raised for the elements before it. *)
Lemma select_unmerged_raise_element
    before after local_repo integration_branch seen kept e :
  select_unmerged before local_repo integration_branch seen = Ok kept →
  select_unmerged (before ++ Raise e :: after)
    local_repo integration_branch seen = Raise e.
Proof.
  revert kept. induction before as [|next rest IH]; intros kept; [done|].
  simpl. destruct next as [b|e0]; [|done]. simpl.
  destruct (branch_is_merged b _ _) as [merged|e0]; [|done]. simpl.
  destruct (if negb merged then _ else _) as [keep|e0]; [|done]. simpl.
  destruct (select_unmerged rest _ _ _) as [selected|e0] eqn:Hrest; [|done].
  intros _. by rewrite (IH selected).
Qed.

Lemma filter_none {A} (f : A → bool) (l : list A) :
  (∀ x, x ∈ l → f x = false) → List.filter f l = [].
Proof.
  induction l as [|x l IH]; intros Hl; [done|]. simpl.
  rewrite (Hl x) by by left. apply IH. intros y Hy. apply Hl. by right.
Qed.

Lemma requests_app t1 t2 : requests (t1 ++ t2) = requests t1 ++ requests t2.
Proof. apply omap_app. Qed.

Lemma requests_prints lines : requests (Print <$> lines) = [].
Proof. by induction lines. Qed.

(** ** More on the loop of [main] *)

Section loop_facts.
Variable str_other : json → string.
Variable api : string → result Response.t.

Local Abbreviation get_forks := (get_forks str_other api).
Local Abbreviation get_branches := (get_branches str_other api).
Local Abbreviation main_body := (main_body str_other api).
Local Abbreviation main_loop := (main_loop str_other api).
Local Abbreviation report_lines := (report_lines str_other).

Lemma get_branches_trace fork :
  trace (get_branches fork) = [HttpGet (branches_request str_other fork)].
Proof. by rewrite get_branches_eq. Qed.

Lemma get_forks_trace repository :
  trace (get_forks repository) = [HttpGet (forks_request str_other repository)].
Proof. by rewrite get_forks_eq. Qed.

(** The body of the loop either completes or raises right after its
    request. *)
Lemma main_body_cases local_repo integration_branch fork st :
  (∃ t st', main_body local_repo integration_branch fork st = Run t (Ok st'))
  ∨ (∃ e, main_body local_repo integration_branch fork st
          = Run [HttpGet (branches_request str_other fork)] (Raise e)).
Proof.
  rewrite <- get_branches_trace.
  destruct (outcome (get_branches fork)) as [branches|e] eqn:Hget.
  - destruct (select_unmerged branches local_repo integration_branch
                (all_unmerged st)) as [kept|e] eqn:Hsel.
    + destruct (select_unmerged_ok _ _ _ _ _ Hsel) as (bs & -> & Hkept).
      destruct (update_total (all_unmerged st) (Branch.commit <$> kept))
        as [seen' Hup].
      { rewrite Hkept. apply kept_hashable. }
      left. do 2 eexists.
      exact (main_body_intro _ _ _ _ _ _ _ _ _ Hget Hsel Hup).
    + right. exists e.
      exact (main_body_raise_select _ _ _ _ _ _ _ _ Hget Hsel).
  - right. exists e. by apply main_body_raise_request.
Qed.

Lemma main_loop_raise_element
    local_repo integration_branch before rest st t st1 e :
  main_loop local_repo integration_branch before st = Run t (Ok st1) →
  main_loop local_repo integration_branch (before ++ Raise e :: rest) st
  = Run t (Raise e).
Proof.
  intros Hbefore. rewrite main_loop_app, (bind_ok _ _ _ _ Hbefore).
  simpl. by rewrite app_nil_r.
Qed.

(** A loop that raises has completed the forks before one element of the
    list and raised at that element: the element is no fork, or the body
    of the loop raised for it right after its request. *)
Lemma main_loop_raise_at local_repo integration_branch forks st t e :
  main_loop local_repo integration_branch forks st = Run t (Raise e) →
  ∃ before next rest t1 st1 t2,
    forks = before ++ next :: rest
    ∧ main_loop local_repo integration_branch before st = Run t1 (Ok st1)
    ∧ t = t1 ++ t2
    ∧ (next = Raise e ∧ t2 = []
       ∨ ∃ fork,
           next = Ok fork
           ∧ t2 = [HttpGet (branches_request str_other fork)]
           ∧ main_body local_repo integration_branch fork st1
             = Run t2 (Raise e)).
Proof.
  revert st t. induction forks as [|[fork|e0] forks IH]; intros st t.
  - done.
  - rewrite main_loop_cons.
    destruct (main_body_cases local_repo integration_branch fork st)
      as [(tb & st' & Hbody)|(e0 & Hbody)].
    + rewrite (bind_ok _ _ _ _ Hbody). intros [= <- Hout].
      destruct (IH st' (trace (main_loop local_repo integration_branch
                                 forks st')))
        as (before & next & rest & t1 & st1 & t2 & -> & Hbefore & Ht & Hat).
      { by rewrite (run_eta (main_loop _ _ _ _)) at 1; rewrite Hout. }
      exists (Ok fork :: before), next, rest, (tb ++ t1), st1, t2.
      split; [done|]. split; [|split; [|done]].
      * rewrite main_loop_cons, (bind_ok _ _ _ _ Hbody). by rewrite Hbefore.
      * by rewrite Ht, app_assoc.
    + rewrite (bind_raise _ _ _ _ Hbody). intros [= <- <-].
      exists [], (Ok fork), forks, [], st,
        [HttpGet (branches_request str_other fork)].
      split; [done|]. split; [done|]. split; [done|].
      right. by exists fork.
  - intros [= <- <-]. exists [], (Raise e0), forks, [], st, [].
    split; [done|]. split; [done|]. split; [done|]. by left.
Qed.

Lemma main_loop_requests local_repo integration_branch fs st t st' :
  main_loop local_repo integration_branch (Ok <$> fs) st = Run t (Ok st') →
  requests t = branches_request str_other <$> fs.
Proof.
  revert st t. induction fs as [|fork fs IH]; intros st t.
  - by intros [= <- _].
  - change (Ok <$> fork :: fs) with (Ok fork :: (Ok <$> fs)).
    rewrite main_loop_cons. intros Hloop.
    apply bind_ok_inv in Hloop as (t1 & st1 & t2 & Hbody & Hloop & ->).
    apply main_body_ok in Hbody as (_ & kept & _ & _ & _ & _ & ->).
    rewrite !requests_app, requests_prints, get_branches_trace, app_nil_r.
    simpl. f_equal. by eapply IH.
Qed.

Lemma main_body_ok_select local_repo integration_branch fork st t st' :
  main_body local_repo integration_branch fork st = Run t (Ok st') →
  ∃ branches kept,
    outcome (get_branches fork) = Ok branches
    ∧ select_unmerged branches local_repo integration_branch
        (all_unmerged st) = Ok kept.
Proof.
  unfold fork_queue.main_body. intros H.
  apply bind_ok_inv in H as (t1 & branches & t2 & Hget & H & _).
  apply bind_ok_inv in H as (t3 & kept & t4 & [= _ Hsel] & _).
  exists branches, kept. by rewrite Hget.
Qed.

(** When a fork has been gone through, going through it again from any
    state whose set holds what the set held then keeps no branch, prints
    nothing and leaves the set as it is. *)
Lemma main_body_again local_repo integration_branch fork st t st1 st2 :
  main_body local_repo integration_branch fork st = Run t (Ok st1) →
  all_unmerged st1 ⊆ all_unmerged st2 →
  main_body local_repo integration_branch fork st2
  = Run [HttpGet (branches_request str_other fork)]
        (Ok (LoopState (all_unmerged st2) (reported st2 ++ [(fork, [])]))).
Proof.
  intros Hbody Hsub.
  destruct (main_body_ok_select _ _ _ _ _ _ Hbody)
    as (branches & kept0 & Hget0 & Hsel).
  apply main_body_ok in Hbody as (bs & kept & Hget & Hkept & Hup & _ & _).
  rewrite Hget in Hget0. injection Hget0 as <-.
  pose proof (select_unmerged_rerun _ _ _ _ _ (all_unmerged st2) Hsel)
    as Hagain.
  rewrite filter_none in Hagain.
  - rewrite (main_body_intro _ _ _ _ _ _ _ _ _ Hget Hagain eq_refl).
    by rewrite get_branches_trace.
  - intros b Hb.
    destruct (unmerged_and_new local_repo integration_branch
                (all_unmerged st2) b) eqn:Hnew; [|done].
    apply unmerged_and_new_true in Hnew as (Hm & k & Hk & Hk2).
    exfalso. apply Hk2, Hsub, (update_ok _ _ _ Hup k).
    destruct (decide (k ∈ all_unmerged st)) as [?|Hk0]; [by left|right].
    exists (Branch.commit b). split; [|done].
    apply list_elem_of_fmap. exists b. split; [done|].
    rewrite Hkept. apply filter_elem_of. split; [done|].
    apply unmerged_and_new_true. split; [done|]. by exists k.
Qed.

(** The set only grows along the loop. *)
Lemma main_loop_grows local_repo integration_branch forks st t st' :
  main_loop local_repo integration_branch forks st = Run t (Ok st') →
  all_unmerged st ⊆ all_unmerged st'.
Proof.
  revert st t. induction forks as [|[fork|e] forks IH]; intros st t.
  - by intros [= <- <-].
  - rewrite main_loop_cons. intros Hloop.
    apply bind_ok_inv in Hloop as (t1 & st1 & t2 & Hbody & Hloop & ->).
    apply main_body_ok in Hbody as (_ & kept & _ & _ & Hup & _ & _).
    apply IH in Hloop. intros k Hk. apply Hloop, (update_ok _ _ _ Hup k).
    by left.
  - done.
Qed.

End loop_facts.

(** ** Further properties of [main] *)

(** When a fork has been gone through and the loop has then gone through
    any further forks, going through the first fork again sends its
    request, keeps no branch, prints nothing and leaves the set as it is:
    a fork that the API lists twice, next to each other or not, is
    reported once. *)
Theorem fork_listed_again
    str_other api local_repo integration_branch fork between
    st t st1 t' st2 :
  main_body str_other api local_repo integration_branch fork st
  = Run t (Ok st1) →
  main_loop str_other api local_repo integration_branch between st1
  = Run t' (Ok st2) →
  main_body str_other api local_repo integration_branch fork st2
  = Run [HttpGet (branches_request str_other fork)]
        (Ok (LoopState (all_unmerged st2) (reported st2 ++ [(fork, [])])))
  ∧ main_loop str_other api local_repo integration_branch
      (Ok fork :: between ++ [Ok fork]) st
    = Run (t ++ t' ++ [HttpGet (branches_request str_other fork)])
          (Ok (LoopState (all_unmerged st2) (reported st2 ++ [(fork, [])]))).
Proof.
  intros Hbody Hloop.
  assert (Hagain :
    main_body str_other api local_repo integration_branch fork st2
    = Run [HttpGet (branches_request str_other fork)]
          (Ok (LoopState (all_unmerged st2) (reported st2 ++ [(fork, [])])))).
  { eapply main_body_again; [exact Hbody|].
    by eapply main_loop_grows. }
  split; [done|].
  rewrite main_loop_cons, (bind_ok _ _ _ _ Hbody).
  rewrite main_loop_app, (bind_ok _ _ _ _ Hloop).
  by rewrite main_loop_cons, (bind_ok _ _ _ _ Hagain).
Qed.

Lemma fork_listed_again_witness :
  output (trace (cli Sample.str_other Cases.api_listed_twice Sample.repo
                   "octo" "repo" "main"))
  = ["alice/repo:"; "  feature"; "bob/repo:"; "  topic"]
  ∧ main_body Sample.str_other Cases.api_listed_twice Sample.repo
      (JStr "main") Sample.alice
      (LoopState {[KStr Sample.d1; KStr Sample.d2]}
         [(Sample.alice, [Sample.branch "feature" Sample.d1]);
          (Sample.bob, [Sample.branch "topic" Sample.d2])])
    = Run [HttpGet (Sample.branches_url "alice")]
          (Ok (LoopState {[KStr Sample.d1; KStr Sample.d2]}
                 [(Sample.alice, [Sample.branch "feature" Sample.d1]);
                  (Sample.bob, [Sample.branch "topic" Sample.d2]);
                  (Sample.alice, [])])).
Proof.
  split; [by vm_compute|].
  destruct (fork_listed_again
              Sample.str_other Cases.api_listed_twice Sample.repo
              (JStr "main") Sample.alice [Ok Sample.bob]
              (LoopState ∅ [])
              [HttpGet (Sample.branches_url "alice");
               Print "alice/repo:"; Print "  feature"]
              (LoopState {[KStr Sample.d1]}
                 [(Sample.alice, [Sample.branch "feature" Sample.d1])])
              [HttpGet (Sample.branches_url "bob");
               Print "bob/repo:"; Print "  topic"]
              (LoopState {[KStr Sample.d1; KStr Sample.d2]}
                 [(Sample.alice, [Sample.branch "feature" Sample.d1]);
                  (Sample.bob, [Sample.branch "topic" Sample.d2])]))
    as [Hagain _].
  - vm_compute. reflexivity.
  - vm_compute. reflexivity.
  - exact Hagain.
Defined.

(** When [main] returns it has sent one request for the forks and then
    one request for the branches of every fork the API listed, in the
    order of the list, and no other request. *)
Theorem requests_of_main
    str_other api cwd_repo repository integration_branch t :
  main str_other api cwd_repo repository integration_branch = Run t (Ok ()) →
  ∃ fs,
    outcome (get_forks str_other api repository) = Ok (Ok <$> fs)
    ∧ requests t
      = forks_request str_other repository
        :: (branches_request str_other <$> fs).
Proof.
  intros Hmain.
  apply main_ok_inv in Hmain as (forks & t' & st & Hget & Hloop & ->).
  destruct (main_loop_ok _ _ _ _ _ _ _ _ Hloop) as (its & -> & _).
  exists (its.*1). split; [done|].
  rewrite requests_app, get_forks_trace. simpl. f_equal.
  by eapply main_loop_requests.
Qed.

Lemma requests_of_main_witness :
  ∃ fs,
    outcome (get_forks Sample.str_other Sample.api_two
               (Repository.make (JStr "octo") (JStr "repo")))
    = Ok (Ok <$> fs)
    ∧ [Sample.forks_url; Sample.branches_url "alice";
       Sample.branches_url "bob"]
      = forks_request Sample.str_other
          (Repository.make (JStr "octo") (JStr "repo"))
        :: (branches_request Sample.str_other <$> fs).
Proof.
  apply (requests_of_main Sample.str_other Sample.api_two Sample.repo
           (Repository.make (JStr "octo") (JStr "repo")) (JStr "main")
           [HttpGet Sample.forks_url;
            HttpGet (Sample.branches_url "alice");
            Print "alice/repo:"; Print "  feature";
            HttpGet (Sample.branches_url "bob")]).
  vm_compute. reflexivity.
Defined.

(** When [main] ends with an exception, either the request for the forks
    raised it, or the loop has gone through the forks before one element
    of the list and raised at that element.  What was printed is then
    the report of the kept branches of these forks, as the state reached
    there holds them, each report whole and no commit in two of them;
    nothing was printed at the element itself. *)
Theorem output_of_failing_main
    str_other api cwd_repo repository integration_branch t e :
  main str_other api cwd_repo repository integration_branch
  = Run t (Raise e) →
  (outcome (get_forks str_other api repository) = Raise e
   ∧ t = [HttpGet (forks_request str_other repository)])
  ∨ ∃ before next rest t1 st1 t2,
      outcome (get_forks str_other api repository)
      = Ok (before ++ next :: rest)
      ∧ main_loop str_other api cwd_repo integration_branch before
          (LoopState ∅ []) = Run t1 (Ok st1)
      ∧ (next = Raise e ∧ t2 = []
         ∨ ∃ fork,
             next = Ok fork
             ∧ t2 = [HttpGet (branches_request str_other fork)]
             ∧ main_body str_other api cwd_repo integration_branch fork st1
               = Run t2 (Raise e))
      ∧ t = HttpGet (forks_request str_other repository) :: t1 ++ t2
      ∧ before = Ok <$> (reported st1).*1
      ∧ output t
        = concat ((λ it, report_lines str_other it.1 it.2) <$> reported st1)
      ∧ holds_reported st1
      ∧ reported_unmerged cwd_repo integration_branch (reported st1)
      ∧ reported_once (reported st1).
Proof.
  intros Hmain.
  destruct (outcome (get_forks str_other api repository))
    as [forks|e0] eqn:Hget.
  - right.
    rewrite (main_finish _ _ _ _ _ _ _ _ Hget
               (run_eta (main_loop str_other api cwd_repo
                           integration_branch forks (LoopState ∅ []))))
      in Hmain.
    injection Hmain as <- Hout.
    destruct (outcome (main_loop _ _ _ _ _ _)) as [st|e1] eqn:Hres; [done|].
    injection Hout as ->.
    destruct (main_loop_raise_at str_other api cwd_repo integration_branch
                forks (LoopState ∅ [])
                (trace (main_loop str_other api cwd_repo
                          integration_branch forks (LoopState ∅ []))) e)
      as (before & next & rest & t1 & st1 & t2 & -> & Hbefore & Ht & Hat).
    { by rewrite (run_eta (main_loop _ _ _ _ _ _)) at 1; rewrite Hres. }
    exists before, next, rest, t1, st1, t2.
    destruct (initial_state_inv cwd_repo integration_branch) as (? & ? & ?).
    destruct (main_loop_inv _ _ _ _ _ _ _ _ Hbefore) as (? & ? & ?);
      [done..|].
    destruct (main_loop_ok _ _ _ _ _ _ _ _ Hbefore)
      as (its & Hforks & Hrep & Hout & _).
    simpl in Hrep. subst its.
    split; [done|]. split; [done|]. split; [done|].
    split; [by rewrite Ht, get_forks_trace|]. split; [done|].
    split; [|done].
    rewrite Ht, !output_app, Hout, get_forks_trace. simpl.
    destruct Hat as [[_ ->]|(fork & _ & -> & _)]; simpl; by rewrite app_nil_r.
  - left. rewrite (main_raise_request _ _ _ _ _ _ Hget) in Hmain.
    injection Hmain as <- <-. split; [done|]. apply get_forks_trace.
Qed.

Lemma output_of_failing_main_witness :
  ∃ st1,
    output [HttpGet Sample.forks_url;
            HttpGet (Sample.branches_url "alice");
            Print "alice/repo:"; Print "  feature";
            HttpGet (Sample.branches_url "bob")]
    = concat ((λ it, report_lines Sample.str_other it.1 it.2)
                <$> reported st1)
    ∧ reported_once (reported st1).
Proof.
  destruct (output_of_failing_main
              Sample.str_other Cases.api_bad_branch Sample.repo
              Sample.octo (JStr "main")
              [HttpGet Sample.forks_url;
               HttpGet (Sample.branches_url "alice");
               Print "alice/repo:"; Print "  feature";
               HttpGet (Sample.branches_url "bob")]
              (KeyError "commit"))
    as [[Hget _]|
        (before & next & rest & t1 & st1 & t2
         & _ & _ & _ & _ & _ & Hout & _ & _ & Honce)].
  - vm_compute. reflexivity.
  - vm_compute in Hget. discriminate Hget.
  - exists st1. split; [exact Hout|exact Honce].
Defined.

(** When the loop of [main] completes, nothing was printed exactly when
    no branch was kept for any fork: a fork without a kept branch has no
    header. *)
Theorem nothing_printed_iff_nothing_kept
    str_other api local_repo integration_branch forks t st :
  main_loop str_other api local_repo integration_branch forks
    (LoopState ∅ []) = Run t (Ok st) →
  output t = [] ↔ Forall (λ it, it.2 = []) (reported st).
Proof.
  intros Hloop.
  apply main_loop_ok in Hloop as (its & _ & -> & -> & _). simpl.
  induction its as [|[fork kept] its IH]; simpl.
  - split; [constructor|done].
  - rewrite Forall_cons. simpl. destruct kept as [|b kept]; simpl.
    + rewrite IH. naive_solver.
    + split; [done|]. by intros [? _].
Qed.

Lemma nothing_printed_iff_nothing_kept_witness :
  output [HttpGet (Sample.branches_url "alice")] = []
  ↔ Forall (λ it : Repository.t * list Branch.t, it.2 = [])
      [(Repository.make (JStr "alice") (JStr "repo"), [])].
Proof.
  apply (nothing_printed_iff_nothing_kept
           Sample.str_other Cases.api_all_merged Sample.repo (JStr "main")
           [Ok (Repository.make (JStr "alice") (JStr "repo"))]
           [HttpGet (Sample.branches_url "alice")]
           (LoopState ∅ [(Repository.make (JStr "alice") (JStr "repo"), [])])).
  vm_compute. reflexivity.
Defined.

(** ** Replies that are not what the program expects *)

(** A reply that is no array but can be iterated over, a non-empty object
    or string, gives strings to the loop. *)
Lemma py_iter_strings body :
  (∃ field fields, body = JObj (field :: fields))
  ∨ (∃ a s, body = JStr (String a s)) →
  ∃ k items, py_iter body = Ok (JStr k :: items).
Proof.
  intros [(field & fields & ->)|(a & s & ->)]; unfold py_iter.
  - destruct field as [k v]. exists k, (JStr <$> dict_keys [k] fields).
    simpl. destruct (decide (k ∈ [])) as [Hin|_]; [by inversion Hin|done].
  - by eexists _, _.
Qed.

Lemma py_iter_scalar body :
  body = JNull ∨ (∃ b, body = JBool b) ∨ (∃ n, body = JNum n) →
  py_iter body = Raise TypeError.
Proof. by intros [->|[[b ->]|[n ->]]]. Qed.

Lemma py_iter_empty body :
  body = JArr [] ∨ body = JObj [] ∨ body = JStr "" → py_iter body = Ok [].
Proof. by intros [->|[->| ->]]. Qed.

(** When the reply to the request for the forks is not an array, [main]
    stops after that request: it returns without a line for an empty
    object or string (as for an empty array), and raises [TypeError] for
    an object with a field (such as the message of a refused request),
    for a non-empty string, and for [null], a boolean or a number. *)
Theorem forks_reply_not_an_array
    str_other api cwd_repo repository integration_branch body :
  api (forks_request str_other repository) = Ok (Response.make (Ok body)) →
  (body = JArr [] ∨ body = JObj [] ∨ body = JStr "" →
   main str_other api cwd_repo repository integration_branch
   = Run [HttpGet (forks_request str_other repository)] (Ok ()))
  ∧ ((∃ field fields, body = JObj (field :: fields))
     ∨ (∃ a s, body = JStr (String a s))
     ∨ body = JNull ∨ (∃ b, body = JBool b) ∨ (∃ n, body = JNum n) →
     main str_other api cwd_repo repository integration_branch
     = Run [HttpGet (forks_request str_other repository)] (Raise TypeError)).
Proof.
  intros Hapi.
  assert (Hget : outcome (get_forks str_other api repository)
                 = match py_iter body with
                   | Ok items => Ok (fork_of <$> items)
                   | Raise e => Raise e
                   end).
  { rewrite get_forks_eq. simpl. unfold response_items.
    fold (forks_request str_other repository). by rewrite Hapi. }
  split.
  - intros Hbody. rewrite (py_iter_empty _ Hbody) in Hget.
    rewrite (main_finish _ _ _ _ _ _ [] (Ok (LoopState ∅ [])) Hget eq_refl).
    by rewrite get_forks_trace.
  - intros [Hbody|[Hbody|Hbody]].
    + destruct (py_iter_strings body (or_introl Hbody)) as (k & items & Hit).
      rewrite Hit in Hget.
      rewrite (main_finish _ _ _ _ _ _ [] (Raise TypeError) Hget eq_refl).
      by rewrite get_forks_trace.
    + destruct (py_iter_strings body (or_intror Hbody)) as (k & items & Hit).
      rewrite Hit in Hget.
      rewrite (main_finish _ _ _ _ _ _ [] (Raise TypeError) Hget eq_refl).
      by rewrite get_forks_trace.
    + rewrite (py_iter_scalar _ Hbody) in Hget.
      rewrite (main_raise_request _ _ _ _ _ _ Hget).
      by rewrite get_forks_trace.
Qed.

Lemma forks_reply_not_an_array_witness :
  cli Sample.str_other Cases.api_refused Sample.repo "octo" "repo" "main"
  = Run [HttpGet Sample.forks_url] (Raise TypeError).
Proof.
  destruct (forks_reply_not_an_array
              Sample.str_other Cases.api_refused Sample.repo
              (Repository.make (JStr "octo") (JStr "repo")) (JStr "main")
              (JObj [("message", JStr "API rate limit exceeded")]))
    as [_ Hraise].
  - reflexivity.
  - apply Hraise. left. by eexists _, _.
Defined.

(** The same for the reply to the request for the branches of a fork:
    the fork is gone through without a line for an empty reply, and
    [TypeError] is raised right after the request otherwise. *)
Theorem branches_reply_not_an_array
    str_other api local_repo integration_branch fork st body :
  api (branches_request str_other fork) = Ok (Response.make (Ok body)) →
  (body = JArr [] ∨ body = JObj [] ∨ body = JStr "" →
   main_body str_other api local_repo integration_branch fork st
   = Run [HttpGet (branches_request str_other fork)]
         (Ok (LoopState (all_unmerged st) (reported st ++ [(fork, [])]))))
  ∧ ((∃ field fields, body = JObj (field :: fields))
     ∨ (∃ a s, body = JStr (String a s))
     ∨ body = JNull ∨ (∃ b, body = JBool b) ∨ (∃ n, body = JNum n) →
     main_body str_other api local_repo integration_branch fork st
     = Run [HttpGet (branches_request str_other fork)] (Raise TypeError)).
Proof.
  intros Hapi.
  assert (Hget : outcome (get_branches str_other api fork)
                 = match py_iter body with
                   | Ok items => Ok (branch_of <$> items)
                   | Raise e => Raise e
                   end).
  { rewrite get_branches_eq. simpl. unfold response_items.
    fold (branches_request str_other fork). by rewrite Hapi. }
  rewrite <- (get_branches_trace str_other api fork).
  split.
  - intros Hbody. rewrite (py_iter_empty _ Hbody) in Hget.
    rewrite (main_body_intro _ _ _ _ _ _ [] [] (all_unmerged st) Hget
               eq_refl eq_refl).
    simpl. by rewrite app_nil_r.
  - intros [Hbody|[Hbody|Hbody]].
    + destruct (py_iter_strings body (or_introl Hbody)) as (k & items & Hit).
      rewrite Hit in Hget.
      by rewrite (main_body_raise_select _ _ _ _ _ _ _ TypeError Hget).
    + destruct (py_iter_strings body (or_intror Hbody)) as (k & items & Hit).
      rewrite Hit in Hget.
      by rewrite (main_body_raise_select _ _ _ _ _ _ _ TypeError Hget).
    + rewrite (py_iter_scalar _ Hbody) in Hget.
      by rewrite (main_body_raise_request _ _ _ _ _ _ _ Hget).
Qed.

Lemma branches_reply_not_an_array_witness :
  main_body Sample.str_other Cases.api_refused Sample.repo (JStr "main")
    (Repository.make (JStr "alice") (JStr "repo")) (LoopState ∅ [])
  = Run [HttpGet (Sample.branches_url "alice")] (Raise TypeError).
Proof.
  destruct (branches_reply_not_an_array
              Sample.str_other Cases.api_refused Sample.repo (JStr "main")
              (Repository.make (JStr "alice") (JStr "repo")) (LoopState ∅ [])
              (JObj [("message", JStr "API rate limit exceeded")]))
    as [_ Hraise].
  - reflexivity.
  - apply Hraise. left. by eexists _, _.
Defined.

(** An element of the list of forks without [owner], without [login] in
    its owner or without [name] raises [KeyError] for that key, when the
    loop reaches it: the forks before it have been gone through and
    reported, and [main] ends there. *)
Theorem fork_element_without_key
    str_other api cwd_repo repository integration_branch :
  (∀ fields, dict_get "owner" fields = None →
             fork_of (JObj fields) = Raise (KeyError "owner"))
  ∧ (∀ fields owner,
       dict_get "owner" fields = Some (JObj owner) →
       dict_get "login" owner = None →
       fork_of (JObj fields) = Raise (KeyError "login"))
  ∧ (∀ fields owner login,
       dict_get "owner" fields = Some owner →
       getitem owner "login" = Ok login →
       dict_get "name" fields = None →
       fork_of (JObj fields) = Raise (KeyError "name"))
  ∧ (∀ before e rest t st,
       outcome (get_forks str_other api repository)
       = Ok (before ++ Raise e :: rest) →
       main_loop str_other api cwd_repo integration_branch before
         (LoopState ∅ []) = Run t (Ok st) →
       main str_other api cwd_repo repository integration_branch
       = Run (HttpGet (forks_request str_other repository) :: t) (Raise e)).
Proof.
  split; [|split; [|split]].
  - intros fields Ho. unfold fork_of. simpl. by rewrite Ho.
  - intros fields owner Ho Hl. unfold fork_of. simpl. rewrite Ho. simpl.
    by rewrite Hl.
  - intros fields owner login Ho Hl Hn. unfold fork_of. simpl.
    rewrite Ho. simpl. rewrite Hl. simpl. by rewrite Hn.
  - intros before e rest t st Hget Hloop.
    rewrite (main_finish _ _ _ _ _ _ _ _ Hget
               (main_loop_raise_element _ _ _ _ _ rest _ _ _ e Hloop)).
    by rewrite get_forks_trace.
Qed.

Lemma fork_element_without_key_witness :
  cli Sample.str_other Cases.api_bad_fork Sample.repo "octo" "repo" "main"
  = Run [HttpGet Sample.forks_url;
         HttpGet (Sample.branches_url "alice");
         Print "alice/repo:"; Print "  feature"]
        (Raise (KeyError "owner")).
Proof.
  destruct (fork_element_without_key
              Sample.str_other Cases.api_bad_fork Sample.repo
              (Repository.make (JStr "octo") (JStr "repo")) (JStr "main"))
    as (_ & _ & _ & Hmain).
  apply (Hmain [Ok (Repository.make (JStr "alice") (JStr "repo"))]
           (KeyError "owner") []
           [HttpGet (Sample.branches_url "alice");
            Print "alice/repo:"; Print "  feature"]
           (LoopState {[KStr Sample.d1]}
              [(Repository.make (JStr "alice") (JStr "repo"),
                [Branch.make (JStr "feature") (JStr Sample.d1)])])).
  - vm_compute. reflexivity.
  - vm_compute. reflexivity.
Defined.

(** An element of the list of branches of a fork without [name], without
    [commit] or without [sha] in its commit raises [KeyError] for that
    key; the body of the loop then ends right after its request: no line
    is printed for the fork, also not for the branches before the
    element. *)
Theorem branch_element_without_key
    str_other api local_repo integration_branch fork st :
  (∀ fields, dict_get "name" fields = None →
             branch_of (JObj fields) = Raise (KeyError "name"))
  ∧ (∀ fields name,
       dict_get "name" fields = Some name →
       dict_get "commit" fields = None →
       branch_of (JObj fields) = Raise (KeyError "commit"))
  ∧ (∀ fields name commit,
       dict_get "name" fields = Some name →
       dict_get "commit" fields = Some (JObj commit) →
       dict_get "sha" commit = None →
       branch_of (JObj fields) = Raise (KeyError "sha"))
  ∧ (∀ earlier e later kept,
       outcome (get_branches str_other api fork)
       = Ok (earlier ++ Raise e :: later) →
       select_unmerged earlier local_repo integration_branch
         (all_unmerged st) = Ok kept →
       main_body str_other api local_repo integration_branch fork st
       = Run [HttpGet (branches_request str_other fork)] (Raise e)).
Proof.
  split; [|split; [|split]].
  - intros fields Hn. unfold branch_of. simpl. by rewrite Hn.
  - intros fields name Hn Hc. unfold branch_of. simpl. rewrite Hn. simpl.
    by rewrite Hc.
  - intros fields name commit Hn Hc Hs. unfold branch_of. simpl.
    rewrite Hn. simpl. rewrite Hc. simpl. by rewrite Hs.
  - intros earlier e later kept Hget Hsel.
    rewrite (main_body_raise_select _ _ _ _ _ _ _ e Hget).
    + by rewrite get_branches_trace.
    + by eapply select_unmerged_raise_element.
Qed.

Lemma branch_element_without_key_witness :
  main_body Sample.str_other Cases.api_bad_branch Sample.repo (JStr "main")
    Sample.bob
    (LoopState {[KStr Sample.d1]}
       [(Sample.alice, [Sample.branch "feature" Sample.d1])])
  = Run [HttpGet (Sample.branches_url "bob")] (Raise (KeyError "commit")).
Proof.
  destruct (branch_element_without_key
              Sample.str_other Cases.api_bad_branch Sample.repo (JStr "main")
              Sample.bob
              (LoopState {[KStr Sample.d1]}
                 [(Sample.alice, [Sample.branch "feature" Sample.d1])]))
    as (_ & _ & _ & Hbody).
  apply (Hbody [Ok (Sample.branch "topic" Sample.d2)]
           (KeyError "commit") []
           [Sample.branch "topic" Sample.d2]).
  - vm_compute. reflexivity.
  - vm_compute. reflexivity.
Defined.

(** Only [BadObject] is handled: any other exception of the lookup of the
    commit of a branch is raised by [branch_is_merged], and ends the body
    of the loop right after its request, when nothing raised for the
    branches before. *)
Theorem only_bad_object_is_handled
    str_other api local_repo integration_branch fork st
    earlier branch later kept e :
  Repo.commit local_repo (Branch.commit branch) = Raise e →
  e ≠ BadObject →
  branch_is_merged branch local_repo integration_branch = Raise e
  ∧ (outcome (get_branches str_other api fork)
     = Ok (earlier ++ Ok branch :: later) →
     select_unmerged earlier local_repo integration_branch
       (all_unmerged st) = Ok kept →
     main_body str_other api local_repo integration_branch fork st
     = Run [HttpGet (branches_request str_other fork)] (Raise e)).
Proof.
  intros He Hne.
  assert (Hm : branch_is_merged branch local_repo integration_branch
               = Raise e).
  { unfold branch_is_merged. rewrite He. by destruct e. }
  split; [done|]. intros Hget Hsel.
  rewrite (main_body_raise_select _ _ _ _ _ _ _ e Hget).
  - by rewrite get_branches_trace.
  - by eapply select_unmerged_raise.
Qed.

Lemma only_bad_object_is_handled_witness :
  branch_is_merged (Sample.branch "feature" Sample.gone)
    Sample.repo (JStr "main") = Raise ValueError
  ∧ main_body Sample.str_other Cases.api_gone Sample.repo (JStr "main")
      Sample.alice (LoopState ∅ [])
    = Run [HttpGet (Sample.branches_url "alice")] (Raise ValueError).
Proof.
  destruct (only_bad_object_is_handled
              Sample.str_other Cases.api_gone Sample.repo (JStr "main")
              Sample.alice (LoopState ∅ [])
              [] (Sample.branch "feature" Sample.gone) [] []
              ValueError) as [Hm Hbody].
  - vm_compute. reflexivity.
  - discriminate.
  - split; [exact Hm|]. apply Hbody.
    + vm_compute. reflexivity.
    + reflexivity.
Defined.

(** ** The whole run when nothing raises *)

(** When the API lists the forks and, for each of them, its branches, and
    no check of a branch raises, [main] returns; it has sent the request
    for the forks and then, fork after fork in the order of the API, the
    request for the branches of the fork followed by the printing of the
    report of the fork.  The branches reported for a fork are, in the
    order of the API, those told unmerged whose commit was not reported
    for a fork before it. *)
Theorem main_reports_listing
    str_other api cwd_repo repository integration_branch listing :
  outcome (get_forks str_other api repository) = Ok (Ok <$> listing.*1) →
  Forall (λ fb, outcome (get_branches str_other api fb.1) = Ok (Ok <$> fb.2)
                ∧ ∀ b, b ∈ fb.2 →
                       checks_return cwd_repo integration_branch b)
         listing →
  main str_other api cwd_repo repository integration_branch
  = Run (HttpGet (forks_request str_other repository)
           :: concat (fork_events str_other
                        <$> expected_report cwd_repo integration_branch
                              listing ∅))
        (Ok ())
  ∧ output (trace (main str_other api cwd_repo repository
                     integration_branch))
    = concat ((λ it, report_lines str_other it.1 it.2)
                <$> expected_report cwd_repo integration_branch listing ∅).
Proof.
  intros Hget Hall.
  destruct (main_loop_total str_other api cwd_repo integration_branch
              listing (LoopState ∅ []) Hall) as [seen' Hloop].
  assert (Hmain :
    main str_other api cwd_repo repository integration_branch
    = Run (HttpGet (forks_request str_other repository)
             :: concat (fork_events str_other
                          <$> expected_report cwd_repo integration_branch
                                listing ∅))
          (Ok ())).
  { rewrite (main_finish _ _ _ _ _ _ _ _ Hget Hloop).
    by rewrite get_forks_trace. }
  split; [done|]. rewrite Hmain. simpl. apply output_fork_events.
Qed.

Lemma main_reports_listing_witness :
  output (trace (main Sample.str_other Sample.api_two Sample.repo
                   Sample.octo (JStr "main")))
  = concat ((λ it, report_lines Sample.str_other it.1 it.2)
              <$> expected_report Sample.repo (JStr "main")
                    [(Sample.alice, [Sample.branch "feature" Sample.d1]);
                     (Sample.bob, [Sample.branch "master" Sample.c1;
                                   Sample.branch "topic" Sample.d1])] ∅).
Proof.
  apply (main_reports_listing
           Sample.str_other Sample.api_two Sample.repo Sample.octo
           (JStr "main")
           [(Sample.alice, [Sample.branch "feature" Sample.d1]);
            (Sample.bob, [Sample.branch "master" Sample.c1;
                          Sample.branch "topic" Sample.d1])]).
  - vm_compute. reflexivity.
  - repeat constructor; try (vm_compute; reflexivity);
      intros b Hb; simpl in Hb;
      repeat (apply elem_of_cons in Hb as [->|Hb]);
      try (by inversion Hb);
      (eexists; split; [by vm_compute|]); intros; by eexists.
Defined.
